(** * pvxs: socket addresses ([SockAddr], src/util.cpp) and the shared UDP manager

    A shallow embedding of the [SockAddr] value type of src/util.cpp and of
    the UDP socket registry its callers rely on.

    Conventions of the embedding.
    - The [store] of a [SockAddr] is the C++ union of [sockaddr],
      [sockaddr_in] and [sockaddr_in6]; it is modelled as the bytes of that
      union, and every member access of the source is a load or a store at
      the member's offset.
    - A C++ [throw] is the left injection of [result]; a member function
      that mutates [*this] returns the outcome together with the object as
      it is when the function is left.
    - [int], [unsigned] and [unsigned short] values are mathematical
      integers ([Z]); a narrowing conversion is written out as a [mod]. *)

From Stdlib Require Import ZArith Lia Strings.Byte Strings.Ascii.
From stdpp Require Import base option list strings countable gmap.

Local Open Scope Z_scope.

(** * Exceptions *)

(** The three standard exception classes thrown by util.cpp, with their
    [what()] text. *)
Inductive exn : Type :=
  | invalid_argument (what : string)
  | logic_error (what : string)
  | runtime_error (what : string).

Definition result (A : Type) : Type := (exn + A)%type.

Definition ret {A} (a : A) : result A := inr a.
Definition throw {A} (e : exn) : result A := inl e.
Definition bind {A B} (r : result A) (k : A -> result B) : result B :=
  match r with
  | inl e => inl e
  | inr a => k a
  end.

Notation "'let!' x ':=' r 'in' k" := (bind r (fun x => k))
  (at level 10, x name, r at level 100, k at level 200).

(** The error kinds of the specification are the exceptions of the source,
    told apart by class and message. *)
Definition InvalidAddressFamily : exn :=
  invalid_argument "Unsupported address family".
Definition TruncatedAddress : exn :=
  invalid_argument "Truncated Address".
Definition FamilyNotSet : exn :=
  logic_error "SockAddr: set family before port".
Definition AddressParseError (name : string) : exn :=
  runtime_error ("Unable to parse as IP addresss: " +:+ name).

(** * Bytes and integers in memory *)

Definition byte_to_Z (b : byte) : Z := Z.of_N (Byte.to_N b).

(** Narrowing to [unsigned char]. *)
Definition Z_to_byte (z : Z) : byte :=
  default "000"%byte (Byte.of_N (Z.to_N (z mod 256))).

Definition get_byte (mem : list byte) (off : nat) : Z :=
  byte_to_Z (nth off mem "000"%byte).

(** Unaligned loads and stores of a little-endian host. *)
Definition load16 (mem : list byte) (off : nat) : Z :=
  get_byte mem off + 256 * get_byte mem (off + 1).

Definition store16 (off : nat) (v : Z) (mem : list byte) : list byte :=
  <[off := Z_to_byte v]> (<[(off + 1)%nat := Z_to_byte (Z.shiftr v 8)]> mem).

Definition load32 (mem : list byte) (off : nat) : Z :=
  load16 mem off + 65536 * load16 mem (off + 2).

Definition store32 (off : nat) (v : Z) (mem : list byte) : list byte :=
  store16 off v (store16 (off + 2) (Z.shiftr v 16) mem).

(** [memset(p, 0, n)] on a fresh object of [n] bytes. *)
Definition zeroed (n : nat) : list byte := replicate n "000"%byte.

(** [memcpy(dst, src, n)]: the first [n] bytes of [dst] are replaced by the
    first [n] bytes of [src] (which the caller promises to be readable). *)
Definition memcpy (dst src : list byte) (n : nat) : list byte :=
  take n src ++ drop n dst.

(** Byte-order conversions of a little-endian host; the argument is first
    converted to the parameter type ([uint16_t], [uint32_t]). *)
Definition htons (x : Z) : Z :=
  let x := x mod 65536 in
  Z.land (Z.lor (Z.shiftl x 8) (Z.shiftr x 8)) 65535.

Definition ntohs (x : Z) : Z := htons x.

Definition htonl (x : Z) : Z :=
  let x := x mod 4294967296 in
  Z.lor (Z.lor (Z.shiftl (Z.land x 255) 24)
               (Z.shiftl (Z.land (Z.shiftr x 8) 255) 16))
        (Z.lor (Z.shiftl (Z.land (Z.shiftr x 16) 255) 8)
               (Z.land (Z.shiftr x 24) 255)).

(** * The platform's socket ABI

    The declarations of [sockaddr], [sockaddr_in], [sockaddr_in6] and of the
    [AF_*] and [INADDR_*] constants come from the system headers, and the
    union [store] from the class declaration; none is part of util.cpp.
    The values below are those of Linux with glibc. *)

Definition AF_UNSPEC : Z := 0.
Definition AF_INET : Z := 2.
Definition AF_INET6 : Z := 10.

Definition INADDR_ANY : Z := 0.
Definition INADDR_LOOPBACK : Z := 2130706433. (* 0x7f000001 *)

Definition sizeof_sockaddr_in : Z := 16.
Definition sizeof_sockaddr_in6 : Z := 28.
(** [sizeof(store)]: the largest member of the union. *)
Definition sizeof_store : Z := 28.

Definition off_sa_family : nat := 0.
Definition off_sin_port : nat := 2.
Definition off_sin_addr : nat := 4.
Definition off_sin6_port : nat := 2.
Definition off_sin6_addr : nat := 8.

Definition IN6ADDR_ANY_INIT : list byte := zeroed 16.
Definition IN6ADDR_LOOPBACK_INIT : list byte := zeroed 15 ++ ["001"%byte].

(** * SockAddr *)

Record SockAddr : Type := mkSockAddr { store : list byte }.

(** Every [SockAddr] object occupies [sizeof(store)] bytes. *)
Definition wf (a : SockAddr) : Prop :=
  length (store a) = Z.to_nat sizeof_store.

Definition sa_family (a : SockAddr) : Z := load16 (store a) off_sa_family.
Definition sin_port (a : SockAddr) : Z := load16 (store a) off_sin_port.
Definition sin_addr (a : SockAddr) : Z := load32 (store a) off_sin_addr.
Definition sin6_port (a : SockAddr) : Z := load16 (store a) off_sin6_port.
Definition sin6_addr32 (a : SockAddr) (i : nat) : Z :=
  load32 (store a) (off_sin6_addr + 4 * i).

Definition set_sa_family (v : Z) (a : SockAddr) : SockAddr :=
  mkSockAddr (store16 off_sa_family v (store a)).
Definition set_sin_port (v : Z) (a : SockAddr) : SockAddr :=
  mkSockAddr (store16 off_sin_port v (store a)).
Definition set_sin_addr (v : Z) (a : SockAddr) : SockAddr :=
  mkSockAddr (store32 off_sin_addr v (store a)).
Definition set_sin6_port (v : Z) (a : SockAddr) : SockAddr :=
  mkSockAddr (store16 off_sin6_port v (store a)).
Definition set_sin6_addr (v : list byte) (a : SockAddr) : SockAddr :=
  mkSockAddr (take off_sin6_addr (store a) ++ memcpy (drop off_sin6_addr (store a)) v 16).

(** [IN6_IS_ADDR_UNSPECIFIED] and [IN6_IS_ADDR_LOOPBACK] of <netinet/in.h>:
    the address is compared as four 32-bit words. *)
Definition IN6_IS_ADDR_UNSPECIFIED (a : SockAddr) : bool :=
  (sin6_addr32 a 0 =? 0) && (sin6_addr32 a 1 =? 0) &&
  (sin6_addr32 a 2 =? 0) && (sin6_addr32 a 3 =? 0).

Definition IN6_IS_ADDR_LOOPBACK (a : SockAddr) : bool :=
  (sin6_addr32 a 0 =? 0) && (sin6_addr32 a 1 =? 0) &&
  (sin6_addr32 a 2 =? 0) && (sin6_addr32 a 3 =? htonl 1).

(** [SockAddr::SockAddr(int af)] *)
Definition SockAddr_af (af : Z) : result SockAddr :=
  let this := mkSockAddr (zeroed (Z.to_nat sizeof_store)) in
  let this := set_sa_family af this in
  if negb (af =? AF_INET) && negb (af =? AF_INET6) && negb (af =? AF_UNSPEC)
  then throw InvalidAddressFamily
  else ret this.

(** [SockAddr::size() const] *)
Definition size (this : SockAddr) : Z :=
  if sa_family this =? AF_INET then sizeof_sockaddr_in
  else if sa_family this =? AF_INET6 then sizeof_sockaddr_in6
  else sizeof_store.

(** [SockAddr::SockAddr(const sockaddr *addr, ev_socklen_t len)]; [addr] is
    the caller's buffer. The delegated constructor runs first, on the
    family read from the buffer. Where [ev_socklen_t] is unsigned, a
    negative argument arrives as a value above every [size()], and is
    rejected by the second test as it is here by the first. *)
Definition SockAddr_raw (addr : list byte) (len : Z) : result SockAddr :=
  let! this := SockAddr_af (load16 addr off_sa_family) in
  if (len <? 0) || (len >? size this)
  then throw TruncatedAddress
  else ret (mkSockAddr (memcpy (store this) addr (Z.to_nat len))).

(** [SockAddr::port() const] *)
Definition port (this : SockAddr) : Z :=
  if sa_family this =? AF_INET then ntohs (sin_port this)
  else if sa_family this =? AF_INET6 then ntohs (sin6_port this)
  else 0.

(** [SockAddr::setPort(unsigned short port)]: the outcome, and [*this]
    afterwards. *)
Definition setPort (p : Z) (this : SockAddr) : result unit * SockAddr :=
  if sa_family this =? AF_INET then (ret tt, set_sin_port (htons p) this)
  else if sa_family this =? AF_INET6 then (ret tt, set_sin6_port (htons p) this)
  else (throw FamilyNotSet, this).

(** [SockAddr::setAddress(const char *name, unsigned short port)].

    The parser [evutil_parse_sockaddr_port(str, out, outlen)] belongs to
    libevent, not to this repository: it is a parameter of the embedding.
    It is given the string, the bytes of the [out] buffer and the capacity
    [*outlen], and yields its return code, the bytes of [out] and [*outlen]
    afterwards. The local [temp] is default-constructed, that is, with
    family [AF_UNSPEC]. *)
Section setAddress.
Variable evutil_parse_sockaddr_port :
  string -> list byte -> Z -> Z * list byte * Z.

Definition setAddress (name : string) (p : Z) (this : SockAddr)
  : result unit * SockAddr :=
  match SockAddr_af AF_UNSPEC with
  | inl e => (throw e, this)
  | inr temp =>
      let templen := sizeof_store in
      let '(rc, out, templen) :=
        evutil_parse_sockaddr_port name (store temp) templen in
      let temp := mkSockAddr out in
      if negb (rc =? 0) then (throw (AddressParseError name), this)
      else
        let '(r, temp) :=
          if port temp =? 0 then setPort p temp else (ret tt, temp) in
        match r with
        | inl e => (throw e, this)
        | inr _ => (ret tt, temp)
        end
  end.
End setAddress.

(** [SockAddr::isAny() const] *)
Definition isAny (this : SockAddr) : bool :=
  if sa_family this =? AF_INET then sin_addr this =? htonl INADDR_ANY
  else if sa_family this =? AF_INET6 then IN6_IS_ADDR_UNSPECIFIED this
  else false.

(** [SockAddr::isLO() const] *)
Definition isLO (this : SockAddr) : bool :=
  if sa_family this =? AF_INET then sin_addr this =? htonl INADDR_LOOPBACK
  else if sa_family this =? AF_INET6 then IN6_IS_ADDR_LOOPBACK this
  else false.

(** [SockAddr::any(int af, unsigned port)] *)
Definition any (af : Z) (p : Z) : result SockAddr :=
  let! r := SockAddr_af af in
  if af =? AF_INET then
    ret (set_sin_port (htons p) (set_sin_addr (htonl INADDR_ANY) r))
  else if af =? AF_INET6 then
    ret (set_sin6_port (htons p) (set_sin6_addr IN6ADDR_ANY_INIT r))
  else throw InvalidAddressFamily.

(** [SockAddr::loopback(int af, unsigned port)] *)
Definition loopback (af : Z) (p : Z) : result SockAddr :=
  let! r := SockAddr_af af in
  if af =? AF_INET then
    ret (set_sin_port (htons p) (set_sin_addr (htonl INADDR_LOOPBACK) r))
  else if af =? AF_INET6 then
    ret (set_sin6_port (htons p) (set_sin6_addr IN6ADDR_LOOPBACK_INIT r))
  else throw InvalidAddressFamily.

(** The families accepted by [SockAddr(int)]. *)
Definition supported (af : Z) : Prop :=
  af = AF_INET \/ af = AF_INET6 \/ af = AF_UNSPEC.

(** The families that carry an address and a port. *)
Definition concrete (af : Z) : Prop := af = AF_INET \/ af = AF_INET6.

(** * setAddress *)

Definition parser : Type := string -> list byte -> Z -> Z * list byte * Z.

(** What [setAddress] relies on from the parser, for the call it makes (a
    buffer of [sizeof(store)] bytes and that capacity). [written_port]
    gives the port that a string spells out, if it spells one. On success
    the parser has filled the buffer, without resizing it, with an
    [AF_INET] or [AF_INET6] endpoint whose port is the one written, and 0
    when none is written. *)
Definition parses_port (parse : parser) (written_port : string -> option Z)
  : Prop :=
  forall name buf out outlen,
    length buf = Z.to_nat sizeof_store ->
    parse name buf sizeof_store = (0, out, outlen) ->
    wf (mkSockAddr out) /\
    concrete (sa_family (mkSockAddr out)) /\
    port (mkSockAddr out) = default 0 (written_port name).

(** ** A parser of IPv4 literals

    An instance of the parser interface, used to run [setAddress] on
    concrete strings. It accepts "a.b.c.d" and "a.b.c.d:port" written in
    decimal digits, and follows libevent on the port: a port that is
    written must be between 1 and 65535, and the string is rejected
    otherwise. Everything else is rejected, IPv6 literals included, which
    libevent accepts: the instance stands for libevent on IPv4 literals
    only. *)

Fixpoint split_on (sep : Ascii.ascii) (s : string) : list string :=
  match s with
  | EmptyString => [EmptyString]
  | String c s' =>
      if Ascii.eqb c sep then EmptyString :: split_on sep s'
      else match split_on sep s' with
           | h :: t => String c h :: t
           | [] => [String c EmptyString]
           end
  end.

Definition digit (c : Ascii.ascii) : option Z :=
  let n := Z.of_nat (Ascii.nat_of_ascii c) in
  if (48 <=? n) && (n <=? 57) then Some (n - 48) else None.

Fixpoint decimal_from (acc : Z) (s : string) : option Z :=
  match s with
  | EmptyString => Some acc
  | String c s' =>
      match digit c with
      | Some d => decimal_from (10 * acc + d) s'
      | None => None
      end
  end.

Definition decimal (s : string) : option Z :=
  match s with
  | EmptyString => None
  | _ => decimal_from 0 s
  end.

Definition octet (s : string) : option Z :=
  match decimal s with
  | Some n => if n <=? 255 then Some n else None
  | None => None
  end.

Definition ipv4_host (s : string) : option Z :=
  match split_on "."%char s with
  | [a; b; c; d] =>
      match octet a, octet b, octet c, octet d with
      | Some a, Some b, Some c, Some d =>
          Some (a * 16777216 + b * 65536 + c * 256 + d)
      | _, _, _, _ => None
      end
  | _ => None
  end.

Definition ipv4_written_port (name : string) : option Z :=
  match split_on ":"%char name with
  | [_; p] => decimal p
  | _ => None
  end.

Definition ipv4_parser : parser := fun name buf cap =>
  let fail := (-1, buf, cap) in
  let endpoint :=
    match split_on ":"%char name with
    | [h] => Some (h, 0)
    | [h; p] =>
        match decimal p with
        | Some q =>
            if (q <=? 0) || (q >? 65535) then None else Some (h, q)
        | None => None
        end
    | _ => None
    end in
  match endpoint with
  | Some (h, q) =>
      match ipv4_host h with
      | Some a =>
          if cap <? sizeof_sockaddr_in then fail
          else
            let out := mkSockAddr (zeroed (length buf)) in
            let out := set_sa_family AF_INET out in
            let out := set_sin_addr (htonl a) out in
            let out := set_sin_port (htons q) out in
            (0, store out, sizeof_sockaddr_in)
      | None => fail
      end
  | None => fail
  end.

(** ** Sample values *)

(** The bytes of a [sockaddr_in] for 10.0.0.5:5076, cut after the address. *)
Definition sockaddr_in_10_0_0_5 : list byte :=
  ["002"; "000"; "019"; "212"; "010"; "000"; "000"; "005"]%byte.

(** The object built by [SockAddr(AF_UNSPEC)]. *)
Definition unspec : SockAddr :=
  set_sa_family AF_UNSPEC (mkSockAddr (zeroed (Z.to_nat sizeof_store))).

(** The object built by [SockAddr(AF_INET6)]. *)
Definition inet6_zero : SockAddr :=
  set_sa_family AF_INET6 (mkSockAddr (zeroed (Z.to_nat sizeof_store))).

(** The call that [setAddress] makes to the parser: the buffer is that of
    the default-constructed [temp]. *)
Definition parsed (parse : parser) (name : string) : Z * list byte * Z :=
  parse name (store unspec) sizeof_store.

(** The rule of libevent's parser for the port: it returns -1 when the
    port written in the string is not between 1 and 65535, so a string
    that parses spells no port or one in that range. *)
Definition written_port_in_range (parse : parser)
    (written_port : string -> option Z) : Prop :=
  forall name out outlen q,
    parsed parse name = (0, out, outlen) ->
    written_port name = Some q -> 1 <= q <= 65535.

(** * The UDP manager

  util.cpp only calls [UDPManager::cleanup()]; the manager itself
  (udp_collector.cpp) is not among the sources. Its registry and
  operations are taken from sections 3 and 4.2 of the specification. *)

Global Instance byte_eq_dec : EqDecision byte := Byte.byte_eq_dec.
Global Instance byte_countable : Countable byte :=
inj_countable Byte.to_N Byte.of_N Byte.of_to_N.

Module UDPManager.

Local Open Scope nat_scope.

(** An OS socket descriptor. *)
Definition fd : Type := nat.

(** Modelled from the spec: a listener callback, known here by its
    identity only. *)
Definition callback : Type := nat.

(** Modelled from the spec: the Address as the key of the registry, "two
    Addresses are equal iff family, host bytes, and port are all equal;
    used as the exact key type for the Manager's registry". It is the
    family tag, the host bytes (4 for IPv4, 16 for IPv6, none otherwise)
    and the port; the other bytes of a [SockAddr] take no part. *)
Definition Address : Type := (Z * list byte * Z)%type.

Definition host (a : SockAddr) : list byte :=
  if (sa_family a =? AF_INET)%Z then take 4 (drop off_sin_addr (store a))
  else if (sa_family a =? AF_INET6)%Z
       then take 16 (drop off_sin6_addr (store a))
  else [].

Definition address_of (a : SockAddr) : Address :=
  (sa_family a, host a, port a).

(** Modelled from the spec: the listener handle, "an opaque capability
    returned to a caller on subscribe"; it names the entry and the
    registration. *)
Record ListenerHandle : Type := mkHandle {
  handle_addr : Address;
  handle_id : nat
}.

(** Modelled from the spec: the Socket Entry, "bound local Address (key),
    underlying OS socket descriptor, ordered collection of registered
    listener callbacks, live reference count". *)
Record SocketEntry : Type := mkEntry {
  local : Address;
  sock : fd;
  listeners : list (nat * callback);
  refcount : nat
}.

(** What the manager asks of the OS. *)
Inductive syscall : Type :=
  | sys_socket (s : fd)
  | sys_bind (s : fd) (a : Address)
  | sys_close (s : fd).

(** Modelled from the spec: the UDP Manager, "a mapping from Address to
    Socket Entry (keys unique)", together with the part of the OS it
    acts on: the UDP sockets that are open, each with the local address
    it is bound to, and the calls made so far (latest first). *)
Record Manager : Type := mkManager {
  registry : gmap Address SocketEntry;
  os_sockets : gmap fd Address;
  os_calls : list syscall;
  next_fd : fd;
  next_id : nat
}.

Definition init : Manager := mkManager ∅ ∅ [] 0 0.

Inductive error : Type := BindError | InvalidHandle.

(** Modelled from the spec: [subscribe(local_address, callback)]. "First
    subscribe to an Address creates the OS socket, binds it, sets
    refcount=1"; "subsequent subscribes to the same Address increment
    refcount and append a listener; no new OS socket is created";
    "binding fails with BindError if the OS refuses the bind ... not a
    partial registration". [bind_ok] is the answer of the OS to the
    bind, should one be made. The entry is looked up under the Address of
    [local_address]. *)
Definition subscribe (bind_ok : bool) (local_address : SockAddr)
    (cb : callback) (m : Manager) : (error + ListenerHandle) * Manager :=
  let a := address_of local_address in
  let h := mkHandle a (next_id m) in
  match registry m !! a with
  | Some e =>
      let e' := mkEntry (local e) (sock e)
                  (listeners e ++ [(next_id m, cb)]) (S (refcount e)) in
      (inr h, mkManager (<[a := e']> (registry m)) (os_sockets m)
                (os_calls m) (next_fd m) (S (next_id m)))
  | None =>
      let s := next_fd m in
      if bind_ok then
        let e := mkEntry a s [(next_id m, cb)] 1 in
        (inr h, mkManager (<[a := e]> (registry m)) (<[s := a]> (os_sockets m))
                  (sys_bind s a :: sys_socket s :: os_calls m)
                  (S s) (S (next_id m)))
      else
        (inl BindError,
         mkManager (registry m) (os_sockets m)
           (sys_close s :: sys_bind s a :: sys_socket s :: os_calls m)
           (S s) (next_id m))
  end.

(** Removes the first registration with the given identity. *)
Fixpoint remove_listener (id : nat) (l : list (nat * callback))
    : option (list (nat * callback)) :=
  match l with
  | [] => None
  | x :: l' =>
      if decide (x.1 = id) then Some l'
      else cons x <$> remove_listener id l'
  end.

(** Modelled from the spec: [unsubscribe(handle)], "removes the callback,
    decrements refcount"; "last unsubscribe (refcount reaches 0) closes
    the OS socket and removes the registry entry"; a release of a handle
    that is not registered is "signaled rather than silently ignored". *)
Definition unsubscribe (h : ListenerHandle) (m : Manager)
    : (error + unit) * Manager :=
  match registry m !! handle_addr h with
  | Some e =>
      match remove_listener (handle_id h) (listeners e) with
      | Some l =>
          let n := pred (refcount e) in
          if decide (n = 0) then
            (inr tt, mkManager (delete (handle_addr h) (registry m))
                       (delete (sock e) (os_sockets m))
                       (sys_close (sock e) :: os_calls m)
                       (next_fd m) (next_id m))
          else
            (inr tt, mkManager
                       (<[handle_addr h := mkEntry (local e) (sock e) l n]>
                          (registry m))
                       (os_sockets m) (os_calls m) (next_fd m) (next_id m))
      | None => (inl InvalidHandle, m)
      end
  | None => (inl InvalidHandle, m)
  end.

(** Modelled from the spec: [cleanup()], which "force-closes every Socket
    Entry still present in the registry regardless of refcount"; "after
    cleanup(), the registry is empty". *)
Definition cleanup (m : Manager) : Manager :=
  let entries := (map_to_list (registry m)).*2 in
  mkManager ∅
    (foldr (fun e os => delete (sock e) os) (os_sockets m) entries)
    (foldr (fun e calls => sys_close (sock e) :: calls) (os_calls m) entries)
    (next_fd m) (next_id m).

(** Modelled from the spec: the receive path, which invokes "every
    currently registered callback in registration order with the sender
    Address and payload". The result is the list of invocations. *)
Definition dispatch (a sender : SockAddr) (payload : list byte)
    (m : Manager) : list (callback * SockAddr * list byte) :=
  match registry m !! address_of a with
  | Some e => (fun l => (l.2, sender, payload)) <$> listeners e
  | None => []
  end.

(** One operation of the manager. *)
Inductive step : Manager -> Manager -> Prop :=
  | step_subscribe ok a cb m :
      step m (subscribe ok a cb m).2
  | step_unsubscribe h m :
      step m (unsubscribe h m).2
  | step_cleanup m :
      step m (cleanup m).

(** The states the manager can be in. *)
Definition reachable (m : Manager) : Prop := rtc step init m.

Definition is_bind_to (a : Address) (c : syscall) : bool :=
  match c with
  | sys_bind _ a' => bool_decide (a' = a)
  | _ => false
  end.

(** The number of [bind] calls made for an address. *)
Definition binds_to (a : Address) (m : Manager) : nat :=
  length (List.filter (is_bind_to a) (os_calls m)).

(** What the operations maintain: an entry is filed under its own
    address, counts its listeners, has at least one, and its socket is
    open and bound to that address; an open socket is one that the
    manager created, and belongs to the entry of its address. *)
Record invariant (m : Manager) : Prop := mkInvariant {
  inv_entry : forall a e,
    registry m !! a = Some e ->
    local e = a /\ refcount e = length (listeners e) /\
    0 < refcount e /\ os_sockets m !! sock e = Some a;
  inv_socket : forall s a,
    os_sockets m !! s = Some a ->
    s < next_fd m /\ exists e, registry m !! a = Some e /\ sock e = s
}.

(** The wildcard address 0.0.0.0:5076, and the same endpoint received as
    raw bytes with a byte set in its padding ([sin_zero]): another
    [SockAddr], the same Address. *)
Definition any_5076 : SockAddr :=
  match any AF_INET 5076 with
  | inr a => a
  | inl _ => unspec
  end.

Definition any_5076_padded : SockAddr :=
  match SockAddr_raw (<[8%nat := "001"%byte]> (store any_5076)) 16 with
  | inr a => a
  | inl _ => unspec
  end.

(** The manager after a listener has subscribed to each of the two. *)
Definition two_listeners : Manager :=
  (subscribe true any_5076_padded 11 (subscribe true any_5076 10 init).2).2.

End UDPManager.

(** * The constructor from a family, a string and a port *)

(** [SockAddr::SockAddr(int af, const char *address, unsigned short port)]:
    the delegated [SockAddr(af)], then [setAddress(address, port)]. *)
Definition SockAddr_address (parse : parser) (af : Z) (address : string)
    (p : Z) : result SockAddr :=
  let! this := SockAddr_af af in
  match setAddress parse address p this with
  | (inl e, _) => throw e
  | (inr _, this) => ret this
  end.

(** * Output streams

    [std::ostream] as far as util.cpp drives it: the characters written and
    the formatting state that the file sets or depends on (the number base,
    the fill character and the field width). The rest of the state is taken
    at its initial value: output is right-adjusted, digits are lower-case,
    no base prefix is shown, and the stream is good. On the platform
    described above [char] is signed and the locale is "C". *)

Inductive basefield : Type := dec | oct | hex.

Record ostream : Type := mkOstream {
  text : string;
  base : basefield;
  fill : Ascii.ascii;
  width : nat
}.

(** A stream as [std::ostringstream] constructs it. *)
Definition ostringstream : ostream := mkOstream "" dec " "%char 0.

(** [strm.put(c)]: unformatted, the width is neither used nor reset. *)
Definition put (c : Ascii.ascii) (strm : ostream) : ostream :=
  mkOstream (text strm +:+ String c "") (base strm) (fill strm) (width strm).

Fixpoint padding (n : nat) (c : Ascii.ascii) : string :=
  match n with
  | O => ""
  | S n' => String c (padding n' c)
  end.

(** Formatted insertion of a character sequence: padded on the left up to
    the width, which is then reset to 0. *)
Definition insert_string (s : string) (strm : ostream) : ostream :=
  mkOstream
    (text strm +:+ padding (width strm - String.length s) (fill strm) +:+ s)
    (base strm) (fill strm) 0.

(** [strm << c] for a [char]. *)
Definition insert_char (c : Ascii.ascii) (strm : ostream) : ostream :=
  insert_string (String c "") strm.

Definition radix (b : basefield) : Z :=
  match b with dec => 10 | oct => 8 | hex => 16 end.

Definition digit_char (d : Z) : Ascii.ascii :=
  Ascii.ascii_of_nat (Z.to_nat (if d <? 10 then 48 + d else 87 + d)).

(** The digits of [n] in base [b], most significant first; [fuel] bounds
    the number of digits. *)
Fixpoint digits_from (fuel : nat) (b n : Z) (acc : string) : string :=
  let acc := String (digit_char (n mod b)) acc in
  match fuel with
  | O => acc
  | S fuel' => if n / b =? 0 then acc else digits_from fuel' b (n / b) acc
  end.

(** The digits of a 32-bit unsigned value (at most 11 of them, in octal). *)
Definition digits (b : basefield) (n : Z) : string :=
  digits_from 10 (radix b) n "".

(** [strm << n] for an [unsigned] or [unsigned short]. *)
Definition insert_unsigned (n : Z) (strm : ostream) : ostream :=
  insert_string (digits (base strm) n) strm.

(** The manipulators [std::hex], [std::setw(n)] and [std::setfill(c)]. *)
Definition std_hex (strm : ostream) : ostream :=
  mkOstream (text strm) hex (fill strm) (width strm).
Definition std_setw (n : nat) (strm : ostream) : ostream :=
  mkOstream (text strm) (base strm) (fill strm) n.
Definition std_setfill (c : Ascii.ascii) (strm : ostream) : ostream :=
  mkOstream (text strm) (base strm) c (width strm).

(** The value of a [char], which is signed. *)
Definition char_value (c : Ascii.ascii) : Z :=
  let n := Z.of_nat (Ascii.nat_of_ascii c) in
  if n <? 128 then n else n - 256.

(** The conversion [unsigned(c)]. *)
Definition unsigned (v : Z) : Z := v mod 4294967296.

(** [isprint] in the "C" locale. *)
Definition isprint (v : Z) : bool := (32 <=? v) && (v <=? 126).

(** * Escaper *)

(** The body of the loop of [operator<<(std::ostream&, const Escaper&)]:
    the [switch] on one character. *)
Definition escape_char (c : Ascii.ascii) (strm : ostream) : ostream :=
  let v := char_value c in
  let escaped next := put next (put "\"%char strm) in
  if v =? 7 then escaped "a"%char
  else if v =? 8 then escaped "b"%char
  else if v =? 12 then escaped "f"%char
  else if v =? 10 then escaped "n"%char
  else if v =? 13 then escaped "r"%char
  else if v =? 9 then escaped "t"%char
  else if v =? 11 then escaped "v"%char
  else if v =? 92 then escaped "\"%char
  else if v =? 39 then escaped "'"%char
  else if isprint v then put c strm
  else
    insert_unsigned (unsigned v)
      (std_setfill "0"%char
         (std_setw 2 (std_hex (insert_string "\x" strm)))).

(** The loop over the characters of [esc.val]; it ends at the terminating
    NUL. *)
Fixpoint escape_loop (s : string) (strm : ostream) : ostream :=
  match s with
  | EmptyString => strm
  | String c s' =>
      if char_value c =? 0 then strm
      else escape_loop s' (escape_char c strm)
  end.

(** [operator<<(std::ostream&, const Escaper&)]; [None] is the null
    pointer. *)
Definition insert_Escaper (val : option string) (strm : ostream) : ostream :=
  match val with
  | None => insert_string "<NULL>" strm
  | Some s => escape_loop s strm
  end.

(** The text that escaping writes on a fresh stream. *)
Definition escaped (s : string) : string :=
  text (insert_Escaper (Some s) ostringstream).

(** ** Notions used to state what escaping does *)

(** The characters of a C string: those before the first NUL. *)
Fixpoint c_str (s : string) : string :=
  match s with
  | EmptyString => ""
  | String c s' => if char_value c =? 0 then "" else String c (c_str s')
  end.

(** Every character passes [isprint]. *)
Fixpoint all_printable (s : string) : bool :=
  match s with
  | EmptyString => true
  | String c s' => isprint (char_value c) && all_printable s'
  end.

(** Printable, and neither a backslash nor a single quote. *)
Definition plain (c : Ascii.ascii) : bool :=
  isprint (char_value c) && negb (char_value c =? 92)
  && negb (char_value c =? 39).

Fixpoint all_plain (s : string) : bool :=
  match s with
  | EmptyString => true
  | String c s' => plain c && all_plain s'
  end.

(** The character is written as a hexadecimal escape: escaping it alone
    leaves a fresh stream in base 16. *)
Definition hex_escaped (c : Ascii.ascii) : bool :=
  match base (escape_char c ostringstream) with
  | hex => true
  | _ => false
  end.

Fixpoint any_hex_escaped (s : string) : bool :=
  match s with
  | EmptyString => false
  | String c s' =>
      if char_value c =? 0 then false else hex_escaped c || any_hex_escaped s'
  end.

(** The stream after one character has been escaped on it. *)
Definition after_char (c : Ascii.ascii) (strm : ostream) : ostream :=
  mkOstream (text strm +:+ text (escape_char c ostringstream))
    (if hex_escaped c then hex else base strm)
    (if hex_escaped c then "0"%char else fill strm) 0.

(** A reader of escaped text, to show that escaping loses nothing. A
    hexadecimal escape has two digits, or eight when it starts with "f". *)
Definition hex_digit (c : Ascii.ascii) : Z :=
  let n := Z.of_nat (Ascii.nat_of_ascii c) in
  if n <? 58 then n - 48 else n - 87.

Definition char_of (v : Z) : Ascii.ascii :=
  Ascii.ascii_of_nat (Z.to_nat (v mod 256)).

Definition unescape_letter (k : Ascii.ascii) : Ascii.ascii :=
  if Ascii.eqb k "a" then char_of 7
  else if Ascii.eqb k "b" then char_of 8
  else if Ascii.eqb k "f" then char_of 12
  else if Ascii.eqb k "n" then char_of 10
  else if Ascii.eqb k "r" then char_of 13
  else if Ascii.eqb k "t" then char_of 9
  else if Ascii.eqb k "v" then char_of 11
  else k.

Fixpoint unescape (s : string) : string :=
  match s with
  | EmptyString => ""
  | String c rest =>
      if negb (Ascii.eqb c "\") then String c (unescape rest)
      else
        match rest with
        | EmptyString => ""
        | String k rest1 =>
            if negb (Ascii.eqb k "x") then
              String (unescape_letter k) (unescape rest1)
            else
              match rest1 with
              | String d1 (String d2 rest2) =>
                  if negb (Ascii.eqb d1 "f") then
                    String (char_of (16 * hex_digit d1 + hex_digit d2))
                      (unescape rest2)
                  else
                    match rest2 with
                    | String _ (String _ (String _ (String _
                        (String h (String l rest3))))) =>
                        String (char_of (16 * hex_digit h + hex_digit l))
                          (unescape rest3)
                    | _ => ""
                    end
              | _ => ""
              end
        end
  end.

(** * Printing a SockAddr *)

Definition INET_ADDRSTRLEN : nat := 16.
Definition INET6_ADDRSTRLEN : nat := 46.

(** The first [n] characters: what is left of a buffer when a NUL is
    written at index [n]. *)
Fixpoint string_take (n : nat) (s : string) : string :=
  match n, s with
  | S n', String c s' => String c (string_take n' s')
  | _, _ => ""
  end.

(** The number that a string of digits denotes in base [b]. *)
Fixpoint number_from (b acc : Z) (s : string) : Z :=
  match s with
  | EmptyString => acc
  | String c s' => number_from b (acc * b + hex_digit c) s'
  end.

Definition number_of (b : basefield) (s : string) : Z :=
  number_from (radix b) 0 s.

(** [operator<<(std::ostream&, const SockAddr&)] and [SockAddr::tostring].

    [evutil_inet_ntop(af, src, dst, len)] belongs to libevent: it is a
    parameter, given the family, the bytes of the address at [src] and the
    length of the buffer, and yielding the text left in the buffer, or
    [None] when it returns a null pointer. In that case the source writes
    "<???>" and then reads the buffer, which nothing has initialised: the
    result is [None], no defined output. *)
Section print.
Variable evutil_inet_ntop : Z -> list byte -> nat -> option string.

Definition insert_SockAddr (addr : SockAddr) (strm : ostream)
  : option ostream :=
  if sa_family addr =? AF_INET then
    match evutil_inet_ntop AF_INET
            (take 4 (drop off_sin_addr (store addr)))
            (INET_ADDRSTRLEN + 1) with
    | Some buf =>
        let buf := string_take INET_ADDRSTRLEN buf in
        Some (insert_unsigned (ntohs (sin_port addr))
                (insert_char ":" (insert_string buf strm)))
    | None => None
    end
  else if sa_family addr =? AF_INET6 then
    match evutil_inet_ntop AF_INET6
            (take 16 (drop off_sin6_addr (store addr)))
            (INET6_ADDRSTRLEN + 1) with
    | Some buf =>
        let buf := string_take INET6_ADDRSTRLEN buf in
        Some (insert_unsigned (ntohs (sin6_port addr))
                (insert_char ":" (insert_string buf strm)))
    | None => None
    end
  else if sa_family addr =? AF_UNSPEC then Some (insert_string "<>" strm)
  else Some (insert_string "<???>" strm).

Definition tostring (this : SockAddr) : option string :=
  text <$> insert_SockAddr this ostringstream.
End print.

(** The address bytes that [operator<<] hands to [evutil_inet_ntop], and
    the length of the buffer it offers. *)
Definition host_bytes (a : SockAddr) : list byte :=
  if sa_family a =? AF_INET then take 4 (drop off_sin_addr (store a))
  else take 16 (drop off_sin6_addr (store a)).

Definition host_buffer (a : SockAddr) : nat :=
  if sa_family a =? AF_INET then (INET_ADDRSTRLEN + 1)%nat
  else (INET6_ADDRSTRLEN + 1)%nat.

(** A rendering of IPv4 addresses in dotted decimal, to run the printing
    on concrete addresses. *)
Definition ipv4_ntop : Z -> list byte -> nat -> option string :=
  fun af src len =>
    if af =? AF_INET then
      match src with
      | [a; b; c; d] =>
          Some (digits dec (byte_to_Z a) +:+ "." +:+ digits dec (byte_to_Z b)
                +:+ "." +:+ digits dec (byte_to_Z c) +:+ "."
                +:+ digits dec (byte_to_Z d))
      | _ => None
      end
    else None.

(** 10.0.0.5:5076, as [setAddress] leaves it. *)
Definition addr_10_0_0_5 : SockAddr :=
  (setAddress ipv4_parser "10.0.0.5" 5076 unspec).2.

(** * Proofs *)

(** * Memory lemmas *)

Lemma byte_to_Z_range b : 0 <= byte_to_Z b < 256.
Proof.
  unfold byte_to_Z. pose proof (Byte.to_N_bounded b). lia.
Qed.

Lemma byte_to_Z_to_byte z : byte_to_Z (Z_to_byte z) = z mod 256.
Proof.
  unfold Z_to_byte, byte_to_Z.
  pose proof (Z.mod_pos_bound z 256 ltac:(lia)) as Hz.
  destruct (Byte.of_N (Z.to_N (z mod 256))) as [b|] eqn:E; simpl.
  - apply Byte.to_of_N in E. rewrite E. lia.
  - apply Byte.of_N_None_iff in E. lia.
Qed.

Lemma get_byte_insert_eq mem off b :
  (off < length mem)%nat -> get_byte (<[off := b]> mem) off = byte_to_Z b.
Proof.
  intros H. unfold get_byte. f_equal.
  apply nth_lookup_Some. by apply list_lookup_insert_eq.
Qed.

Lemma get_byte_insert_ne mem off off' b :
  off <> off' -> get_byte (<[off := b]> mem) off' = get_byte mem off'.
Proof.
  intros H. unfold get_byte. f_equal.
  rewrite !nth_lookup. by rewrite list_lookup_insert_ne.
Qed.

Lemma length_store16 off v mem : length (store16 off v mem) = length mem.
Proof. unfold store16. by rewrite !length_insert. Qed.

Lemma load16_range mem off : 0 <= load16 mem off < 65536.
Proof.
  unfold load16.
  pose proof (byte_to_Z_range (nth off mem "000"%byte)).
  pose proof (byte_to_Z_range (nth (off + 1) mem "000"%byte)).
  unfold get_byte. lia.
Qed.

Lemma load16_store16 mem off v :
  (off + 1 < length mem)%nat ->
  load16 (store16 off v mem) off = v mod 65536.
Proof.
  intros H. unfold load16, store16.
  rewrite get_byte_insert_eq by (rewrite length_insert; lia).
  rewrite get_byte_insert_ne by lia.
  rewrite get_byte_insert_eq by lia.
  rewrite !byte_to_Z_to_byte, Z.shiftr_div_pow2 by lia.
  change (2 ^ 8) with 256.
  pose proof (Z.mod_pos_bound v 256 ltac:(lia)).
  pose proof (Z.mod_pos_bound (v / 256) 256 ltac:(lia)).
  pose proof (Z.div_mod v 256 ltac:(lia)).
  pose proof (Z.div_mod (v / 256) 256 ltac:(lia)).
  apply Z.mod_unique_pos with (q := v / 256 / 256); lia.
Qed.

Lemma load16_store16_ne mem off off' v :
  (off + 1 < off' \/ off' + 1 < off)%nat ->
  load16 (store16 off v mem) off' = load16 mem off'.
Proof.
  intros H. unfold load16, store16.
  by rewrite !get_byte_insert_ne by lia.
Qed.

Lemma ntohs_htons p : ntohs (htons p) = p mod 65536.
Proof.
  unfold ntohs, htons.
  set (x := p mod 65536).
  assert (Hx : 0 <= x < 65536) by (apply Z.mod_pos_bound; lia).
  assert (Hswap : forall y, 0 <= y < 65536 ->
            Z.land (Z.lor (Z.shiftl y 8) (Z.shiftr y 8)) 65535
            = 256 * (y mod 256) + y / 256).
  { intros y Hy. change 65535 with (Z.ones 16).
    rewrite Z.land_ones by lia.
    rewrite Z.shiftl_mul_pow2, Z.shiftr_div_pow2 by lia.
    change (2 ^ 8) with 256. change (2 ^ 16) with 65536.
    assert (Hdisj : Z.land (y * 256) (y / 256) = 0).
    { apply Z.bits_inj'. intros n Hn. rewrite Z.land_spec, Z.bits_0.
      destruct (Z.lt_ge_cases n 8).
      - replace (y * 256) with (y * 2 ^ 8) by lia.
        rewrite Z.mul_pow2_bits_low by lia. done.
      - replace (y / 256) with (y / 2 ^ 8) by (change (2 ^ 8) with 256; lia).
        rewrite Z.div_pow2_bits by lia.
        rewrite (Z.bits_above_log2 y (n + 8)); [by rewrite andb_false_r|lia|].
        assert (Z.log2 y < 16); [|lia].
        destruct (Z.eq_dec y 0) as [->|]; [done|].
        apply Z.log2_lt_pow2; lia. }
    rewrite <- Z.lxor_lor, <- Z.add_nocarry_lxor by done.
    pose proof (Z.div_mod y 256 ltac:(lia)).
    pose proof (Z.mod_pos_bound y 256 ltac:(lia)).
    symmetry. apply Z.mod_unique_pos with (q := y / 256); lia. }
  rewrite (Hswap x Hx).
  assert (Hy : 0 <= 256 * (x mod 256) + x / 256 < 65536).
  { pose proof (Z.mod_pos_bound x 256 ltac:(lia)).
    pose proof (Z.div_mod x 256 ltac:(lia)). lia. }
  rewrite Z.mod_small by done.
  rewrite Hswap by done.
  pose proof (Z.mod_pos_bound x 256 ltac:(lia)).
  pose proof (Z.div_mod x 256 ltac:(lia)).
  replace ((256 * (x mod 256) + x / 256) mod 256) with (x / 256).
  2:{ apply Z.mod_unique_pos with (q := x mod 256); lia. }
  replace ((256 * (x mod 256) + x / 256) / 256) with (x mod 256).
  2:{ apply Z.div_unique_pos with (r := x / 256); lia. }
  lia.
Qed.

Lemma htons_range p : 0 <= htons p < 65536.
Proof.
  unfold htons. change 65535 with (Z.ones 16).
  rewrite Z.land_ones by lia. apply Z.mod_pos_bound. lia.
Qed.

(** * The type invariant: constructors and mutators keep [sizeof(store)] *)

Lemma wf_set_sin_port v a : wf a -> wf (set_sin_port v a).
Proof. unfold wf. simpl. by rewrite length_store16. Qed.

Lemma wf_set_sin6_port v a : wf a -> wf (set_sin6_port v a).
Proof. unfold wf. simpl. by rewrite length_store16. Qed.

Lemma wf_SockAddr_af af a : SockAddr_af af = inr a -> wf a.
Proof.
  unfold SockAddr_af. case_match; [done|].
  intros [= <-]. reflexivity.
Qed.

Lemma wf_setPort p this : wf this -> wf (setPort p this).2.
Proof.
  intros H. unfold setPort. repeat case_match; simpl;
    auto using wf_set_sin_port, wf_set_sin6_port.
Qed.

(** Writing the port leaves the family tag alone. *)
Lemma sa_family_set_sin_port v a : sa_family (set_sin_port v a) = sa_family a.
Proof. unfold sa_family, set_sin_port. simpl. apply load16_store16_ne. cbv. lia. Qed.

Lemma sa_family_set_sin6_port v a : sa_family (set_sin6_port v a) = sa_family a.
Proof. unfold sa_family, set_sin6_port. simpl. apply load16_store16_ne. cbv. lia. Qed.

Lemma sin_port_set_sin_port v a :
  wf a -> sin_port (set_sin_port v a) = v mod 65536.
Proof.
  unfold wf, sin_port, set_sin_port. simpl. intros H.
  apply load16_store16. rewrite H. cbv. lia.
Qed.

Lemma sin6_port_set_sin6_port v a :
  wf a -> sin6_port (set_sin6_port v a) = v mod 65536.
Proof.
  unfold wf, sin6_port, set_sin6_port. simpl. intros H.
  apply load16_store16. rewrite H. cbv. lia.
Qed.

Lemma SockAddr_af_supported af :
  supported af ->
  SockAddr_af af = inr (set_sa_family af (mkSockAddr (zeroed (Z.to_nat sizeof_store)))).
Proof. by intros [-> | [-> | ->]]. Qed.

Lemma SockAddr_af_unsupported af :
  ~ supported af -> SockAddr_af af = inl InvalidAddressFamily.
Proof.
  unfold supported, SockAddr_af. intros H.
  destruct (Z.eqb_spec af AF_INET); [tauto|].
  destruct (Z.eqb_spec af AF_INET6); [tauto|].
  destruct (Z.eqb_spec af AF_UNSPEC); [tauto|]. done.
Qed.

Lemma classic_supported af : supported af \/ ~ supported af.
Proof. unfold supported. lia. Qed.

Lemma classic_concrete af : concrete af \/ ~ concrete af.
Proof. unfold concrete. lia. Qed.

(** ** Claims about the constructors *)

(** C5. [SockAddr(af)] succeeds exactly for [AF_INET], [AF_INET6] and
    [AF_UNSPEC] and throws "Unsupported address family" for every other
    family; [any(af, port)] and [loopback(af, port)] succeed exactly for
    [AF_INET] and [AF_INET6] and throw the same exception for every other
    family, [AF_UNSPEC] included. *)
Theorem constructors_validate_family (af p : Z) :
  ((exists a, SockAddr_af af = inr a) <-> supported af) /\
  (~ supported af -> SockAddr_af af = inl InvalidAddressFamily) /\
  ((exists a, any af p = inr a) <-> concrete af) /\
  ((exists a, loopback af p = inr a) <-> concrete af) /\
  (~ concrete af ->
     any af p = inl InvalidAddressFamily /\
     loopback af p = inl InvalidAddressFamily) /\
  any AF_UNSPEC p = inl InvalidAddressFamily /\
  loopback AF_UNSPEC p = inl InvalidAddressFamily.
Proof.
  assert (Hbad : ~ concrete af ->
     any af p = inl InvalidAddressFamily /\
     loopback af p = inl InvalidAddressFamily).
  { intros Hc. unfold any, loopback, concrete in *.
    destruct (SockAddr_af af) as [e|a] eqn:E; simpl.
    - destruct (classic_supported af) as [Hs|Hs].
      + rewrite SockAddr_af_supported in E by done. done.
      + rewrite SockAddr_af_unsupported in E by done. by injection E as <-.
    - destruct (Z.eqb_spec af AF_INET); [tauto|].
      destruct (Z.eqb_spec af AF_INET6); [tauto|]. done. }
  repeat split.
  - intros [a Ha]. destruct (classic_supported af) as [Hs|Hs]; [done|].
    rewrite SockAddr_af_unsupported in Ha by done. done.
  - intros Hs. rewrite SockAddr_af_supported by done. eauto.
  - apply SockAddr_af_unsupported.
  - intros [a Ha]. destruct (classic_concrete af) as [Hs|Hs]; [done|].
    destruct (Hbad Hs) as [Hb _]. congruence.
  - intros [-> | ->]; eexists; reflexivity.
  - intros [a Ha]. destruct (classic_concrete af) as [Hs|Hs]; [done|].
    destruct (Hbad Hs) as [_ Hb]. congruence.
  - intros [-> | ->]; eexists; reflexivity.
  - by apply Hbad.
  - by apply Hbad.
Qed.

(** [size()] of the object that [SockAddr(af)] builds, per family. *)
Lemma size_SockAddr_af af this :
  SockAddr_af af = inr this ->
  size this = if af =? AF_INET then sizeof_sockaddr_in
              else if af =? AF_INET6 then sizeof_sockaddr_in6
              else sizeof_store.
Proof.
  intros H. destruct (classic_supported af) as [Hs|Hs].
  - rewrite SockAddr_af_supported in H by done. injection H as <-.
    by destruct Hs as [-> | [-> | ->]].
  - rewrite SockAddr_af_unsupported in H by done. done.
Qed.

(** C2. When the family read from the raw endpoint is [AF_INET],
    [AF_INET6] or [AF_UNSPEC], the constructor from a raw endpoint throws
    "Truncated Address" as soon as the length is negative or greater than
    [size()] for that family (16, 28 and 28 bytes). *)
Theorem SockAddr_raw_rejects_length_out_of_range (addr : list byte) (len : Z) :
  supported (load16 addr off_sa_family) ->
  exists this,
    SockAddr_af (load16 addr off_sa_family) = inr this /\
    size this = (if load16 addr off_sa_family =? AF_INET then 16
                 else if load16 addr off_sa_family =? AF_INET6 then 28
                 else 28) /\
    (len < 0 \/ len > size this -> SockAddr_raw addr len = inl TruncatedAddress).
Proof.
  intros Hs. unfold SockAddr_raw.
  pose proof (SockAddr_af_supported _ Hs) as E.
  eexists. split; [exact E|]. split; [by apply size_SockAddr_af|].
  rewrite E. simpl. intros Hlen.
  destruct (Z.ltb_spec len 0) as [?|Hge]; [done|]. simpl.
  destruct Hlen as [?|Hgt]; [lia|].
  rewrite Z.gtb_ltb.
  match goal with |- context [?s <? len] =>
    destruct (Z.ltb_spec s len); [done|lia] end.
Qed.

Lemma SockAddr_raw_rejects_length_out_of_range_witness :
  SockAddr_raw sockaddr_in_10_0_0_5 17 = inl TruncatedAddress /\
  SockAddr_raw sockaddr_in_10_0_0_5 (-1) = inl TruncatedAddress.
Proof.
  assert (Hs : supported (load16 sockaddr_in_10_0_0_5 off_sa_family))
    by (left; reflexivity).
  destruct (SockAddr_raw_rejects_length_out_of_range sockaddr_in_10_0_0_5 17 Hs)
    as (this & _ & Hsz & H17).
  destruct (SockAddr_raw_rejects_length_out_of_range sockaddr_in_10_0_0_5 (-1) Hs)
    as (this' & _ & _ & Hneg).
  split.
  - apply H17. right. rewrite Hsz. simpl. lia.
  - apply Hneg. left. lia.
Defined.

(** A length between 0 and [size()] passes the guard of the constructor,
    however short it is: the bytes given are copied over the zeroed store. *)
Lemma SockAddr_raw_accepts_length_in_range (addr : list byte) (len : Z) this :
  SockAddr_af (load16 addr off_sa_family) = inr this ->
  0 <= len <= size this ->
  SockAddr_raw addr len
  = inr (mkSockAddr (memcpy (store this) addr (Z.to_nat len))).
Proof.
  intros E Hlen. unfold SockAddr_raw. rewrite E. simpl.
  destruct (Z.ltb_spec len 0); [lia|]. simpl.
  rewrite Z.gtb_ltb. destruct (Z.ltb_spec (size this) len); [lia|done].
Qed.

(** C1 as first stated fails: a raw [AF_INET] endpoint of 8 bytes, half of
    the 16 that [size()] gives for the family, is accepted; the constructor
    returns an address and does not throw "Truncated Address". *)
Lemma SockAddr_raw_short_length_counterexample :
  exists a,
    SockAddr_raw sockaddr_in_10_0_0_5 8 = inr a /\
    sa_family a = AF_INET /\ 8 < size a /\
    SockAddr_raw sockaddr_in_10_0_0_5 8 <> inl TruncatedAddress.
Proof. eexists. repeat split. done. Qed.

(** C1 (amended). For [AF_INET], [AF_INET6] and [AF_UNSPEC], the
    constructor from a raw endpoint throws "Truncated Address" exactly when
    the length is negative or greater than [size()] for the family; every
    length from 0 up to [size()] is accepted, and that many bytes are
    copied over the zeroed store. *)
Theorem SockAddr_raw_truncated_iff (addr : list byte) (len : Z) :
  supported (load16 addr off_sa_family) ->
  exists this,
    SockAddr_af (load16 addr off_sa_family) = inr this /\
    (SockAddr_raw addr len = inl TruncatedAddress <->
     len < 0 \/ len > size this) /\
    (0 <= len <= size this ->
     SockAddr_raw addr len
     = inr (mkSockAddr (memcpy (store this) addr (Z.to_nat len)))).
Proof.
  intros Hs. pose proof (SockAddr_af_supported _ Hs) as E.
  eexists. split; [exact E|].
  match type of E with _ = inr ?t => set (this := t) in * end.
  split; [split|].
  - intros H. destruct (Z.lt_ge_cases len 0) as [?|H0]; [lia|].
    destruct (Z.le_gt_cases len (size this)) as [Hle|?]; [|lia].
    rewrite (SockAddr_raw_accepts_length_in_range addr len this E) in H by lia.
    discriminate.
  - intros Hlen. unfold SockAddr_raw. rewrite E. simpl.
    destruct (Z.ltb_spec len 0); [done|]. simpl.
    rewrite Z.gtb_ltb. destruct (Z.ltb_spec (size this) len); [done|lia].
  - by apply SockAddr_raw_accepts_length_in_range.
Qed.

Lemma SockAddr_raw_truncated_iff_witness :
  exists this,
    SockAddr_af (load16 sockaddr_in_10_0_0_5 off_sa_family) = inr this /\
    (SockAddr_raw sockaddr_in_10_0_0_5 8 = inl TruncatedAddress <->
     8 < 0 \/ 8 > size this) /\
    (0 <= 8 <= size this ->
     SockAddr_raw sockaddr_in_10_0_0_5 8
     = inr (mkSockAddr (memcpy (store this) sockaddr_in_10_0_0_5 (Z.to_nat 8)))).
Proof.
  apply (SockAddr_raw_truncated_iff sockaddr_in_10_0_0_5 8).
  left. reflexivity.
Defined.

(** ** Claims about the port *)

(** C10. On an address whose family is neither [AF_INET] nor [AF_INET6]
    (in particular [AF_UNSPEC]), [port()] returns 0; it has no failing
    path. *)
Theorem port_without_concrete_family (this : SockAddr) :
  sa_family this <> AF_INET -> sa_family this <> AF_INET6 -> port this = 0.
Proof.
  intros H4 H6. unfold port.
  destruct (Z.eqb_spec (sa_family this) AF_INET); [done|].
  destruct (Z.eqb_spec (sa_family this) AF_INET6); [done|]. done.
Qed.

Lemma port_without_concrete_family_witness :
  SockAddr_af AF_UNSPEC = inr unspec /\ port unspec = 0.
Proof.
  split; [reflexivity|].
  apply (port_without_concrete_family unspec); vm_compute; discriminate.
Defined.

(** [setPort] on an address with a concrete family. *)
Lemma setPort_spec (this : SockAddr) (p : Z) :
  wf this -> concrete (sa_family this) -> 0 <= p < 65536 ->
  exists this', setPort p this = (inr tt, this') /\ port this' = p /\ wf this'.
Proof.
  intros Hwf Hc Hp. unfold setPort.
  pose proof (htons_range p) as Hh.
  destruct (Z.eqb_spec (sa_family this) AF_INET) as [E4|N4].
  - eexists. split; [reflexivity|]. split; [|by apply wf_set_sin_port].
    unfold port.
    rewrite sa_family_set_sin_port, E4. simpl.
    rewrite sin_port_set_sin_port by done.
    rewrite Z.mod_small by done. rewrite ntohs_htons. by apply Z.mod_small.
  - destruct Hc as [?|E6]; [done|]. rewrite E6. simpl.
    eexists. split; [reflexivity|]. split; [|by apply wf_set_sin6_port].
    unfold port.
    rewrite sa_family_set_sin6_port, E6. simpl.
    rewrite sin6_port_set_sin6_port by done.
    rewrite Z.mod_small by done. rewrite ntohs_htons. by apply Z.mod_small.
Qed.

(** C6. On an address whose family is neither [AF_INET] nor [AF_INET6],
    [setPort] throws "SockAddr: set family before port" and leaves the
    address as it was; on an [AF_INET] or [AF_INET6] address, [setPort(p)]
    with a 16-bit [p] returns normally and [port()] then gives [p]. *)
Theorem setPort_then_port (this : SockAddr) (p : Z) :
  wf this ->
  (sa_family this <> AF_INET -> sa_family this <> AF_INET6 ->
     setPort p this = (inl FamilyNotSet, this)) /\
  (concrete (sa_family this) -> 0 <= p < 65536 ->
     exists this', setPort p this = (inr tt, this') /\ port this' = p).
Proof.
  intros Hwf. split.
  - intros H4 H6. unfold setPort.
    destruct (Z.eqb_spec (sa_family this) AF_INET); [done|].
    destruct (Z.eqb_spec (sa_family this) AF_INET6); [done|]. done.
  - intros Hc Hp.
    destruct (setPort_spec this p Hwf Hc Hp) as (t & Ht & Hport & _). eauto.
Qed.

Lemma setPort_then_port_witness :
  setPort 5076 unspec = (inl FamilyNotSet, unspec) /\
  exists this', setPort 5076 inet6_zero = (inr tt, this') /\ port this' = 5076.
Proof.
  split.
  - apply (setPort_then_port unspec 5076); [reflexivity | | ];
      vm_compute; discriminate.
  - apply (setPort_then_port inet6_zero 5076); [reflexivity | | lia].
    right. reflexivity.
Defined.

(** ** Claims about the wildcard and loopback addresses *)

Ltac eval_with_port p :=
  unfold store16 at 1;
  generalize (Z_to_byte (htons p)), (Z_to_byte (Z.shiftr (htons p) 8));
  intros ? ?; vm_compute; reflexivity.

(** C7. For [AF_INET] and [AF_INET6] and every port, [any(af, port)]
    returns an address on which [isAny()] is true, and [loopback(af, port)]
    one on which [isLO()] is true. *)
Theorem any_isAny_loopback_isLO (p : Z) :
  (exists a, any AF_INET p = inr a /\ isAny a = true) /\
  (exists a, any AF_INET6 p = inr a /\ isAny a = true) /\
  (exists a, loopback AF_INET p = inr a /\ isLO a = true) /\
  (exists a, loopback AF_INET6 p = inr a /\ isLO a = true).
Proof.
  repeat split; (eexists; split;
    [cbv [any loopback SockAddr_af bind ret throw]; simpl; reflexivity|]).
  - cbv [isAny sa_family sin_addr set_sin_port store]. eval_with_port p.
  - cbv [isAny sa_family IN6_IS_ADDR_UNSPECIFIED sin6_addr32 set_sin6_port store].
    eval_with_port p.
  - cbv [isLO sa_family sin_addr set_sin_port store]. eval_with_port p.
  - cbv [isLO sa_family IN6_IS_ADDR_LOOPBACK sin6_addr32 set_sin6_port store].
    eval_with_port p.
Qed.

Example any_isAny_5076 :
  (let! a := any AF_INET 5076 in ret (isAny a)) = inr true /\
  (let! a := any AF_INET6 5076 in ret (isAny a)) = inr true /\
  (let! a := loopback AF_INET 5076 in ret (isLO a)) = inr true /\
  (let! a := loopback AF_INET6 5076 in ret (isLO a)) = inr true /\
  (let! a := any AF_INET 5076 in ret (port a)) = inr 5076.
Proof. repeat split. Qed.

Lemma length_store32 off v mem : length (store32 off v mem) = length mem.
Proof. unfold store32. by rewrite !length_store16. Qed.

Lemma load16_store32_ne mem off off' v :
  (off + 3 < off' \/ off' + 1 < off)%nat ->
  load16 (store32 off v mem) off' = load16 mem off'.
Proof.
  intros H. unfold store32.
  by rewrite !load16_store16_ne by lia.
Qed.

Lemma digit_range c d : digit c = Some d -> 0 <= d <= 9.
Proof.
  unfold digit. intros H.
  destruct (Z.leb_spec 48 (Z.of_nat (nat_of_ascii c)));
    destruct (Z.leb_spec (Z.of_nat (nat_of_ascii c)) 57);
    simpl in H; inversion H; lia.
Qed.

Lemma decimal_from_nonneg s : forall acc q,
  0 <= acc -> decimal_from acc s = Some q -> 0 <= q.
Proof.
  induction s as [|c s IH]; simpl; intros acc q Hacc H.
  - injection H as <-. done.
  - destruct (digit c) as [d|] eqn:Ed; [|done].
    apply digit_range in Ed. apply (IH (10 * acc + d)); [lia|done].
Qed.

Lemma decimal_nonneg s q : decimal s = Some q -> 0 <= q.
Proof.
  destruct s; [done|]. unfold decimal. by apply decimal_from_nonneg.
Qed.

Lemma ipv4_parser_parses_port : parses_port ipv4_parser ipv4_written_port.
Proof.
  intros name buf out outlen Hlen. unfold ipv4_parser, ipv4_written_port.
  set (o := mkSockAddr (zeroed (length buf))).
  assert (Hport : forall a q, 0 <= q < 65536 ->
    let r := set_sin_port (htons q) (set_sin_addr (htonl a) (set_sa_family AF_INET o)) in
    wf r /\ concrete (sa_family r) /\ port r = q).
  { intros a q Hq r.
    assert (Hwf : wf (set_sin_addr (htonl a) (set_sa_family AF_INET o))).
    { unfold wf. simpl. rewrite length_store32, length_store16.
      unfold zeroed. by rewrite length_replicate. }
    assert (Hfam : sa_family r = AF_INET).
    { unfold r. rewrite sa_family_set_sin_port.
      unfold sa_family, set_sin_addr, set_sa_family. simpl.
      rewrite load16_store32_ne by (cbv; lia).
      rewrite load16_store16; [done|].
      unfold zeroed. rewrite length_replicate, Hlen. cbv. lia. }
    split; [by apply wf_set_sin_port|]. split; [by left|].
    unfold port. rewrite Hfam. simpl. unfold r.
    rewrite sin_port_set_sin_port by done.
    rewrite Z.mod_small by apply htons_range.
    rewrite ntohs_htons. by apply Z.mod_small. }
  destruct (split_on ":" name) as [|h [|p [|? ?]]]; try (intros [=]; done).
  - destruct (ipv4_host h) as [a|]; [|intros [=]; done].
    destruct (sizeof_store <? sizeof_sockaddr_in); [intros [=]; done|].
    intros [= <- _]. apply (Hport a 0). lia.
  - destruct (decimal p) as [q|] eqn:Ep; [|intros [=]; done].
    destruct (Z.leb_spec q 0) as [|Hq0]; [intros [=]; done|].
    rewrite Z.gtb_ltb. destruct (Z.ltb_spec 65535 q) as [|Hq]; [intros [=]; done|].
    cbn [orb]. destruct (ipv4_host h) as [a|]; [|intros [=]; done].
    destruct (sizeof_store <? sizeof_sockaddr_in); [intros [=]; done|].
    intros [= <- _]. apply (Hport a q). lia.
Qed.

Lemma ipv4_parser_port_in_range :
  written_port_in_range ipv4_parser ipv4_written_port.
Proof.
  intros name out outlen q. unfold parsed, ipv4_parser, ipv4_written_port.
  destruct (split_on ":" name) as [|h [|p [|? ?]]]; try done.
  destruct (decimal p) as [q'|]; [|done].
  destruct (Z.leb_spec q' 0) as [|Hq0]; [intros [=]; done|].
  rewrite Z.gtb_ltb. destruct (Z.ltb_spec 65535 q') as [|Hq]; [intros [=]; done|].
  intros _ [= <-]. lia.
Qed.

(** ** Claims about setAddress *)

Section setAddress_claims.
Variable parse : parser.
Variable written_port : string -> option Z.
Hypothesis Hparse : parses_port parse written_port.

Lemma setAddress_unfold name p this :
  setAddress parse name p this
  = let '(rc, out, _) := parsed parse name in
    if negb (rc =? 0) then (inl (AddressParseError name), this)
    else if port (mkSockAddr out) =? 0
         then match setPort p (mkSockAddr out) with
              | (inl e, _) => (inl e, this)
              | (inr _, temp) => (inr tt, temp)
              end
         else (inr tt, mkSockAddr out).
Proof.
  unfold setAddress, parsed.
  change (SockAddr_af AF_UNSPEC) with (inr (A:=exn) unspec). cbv iota beta zeta.
  destruct (parse name (store unspec) sizeof_store) as [[rc out] len].
  destruct (negb (rc =? 0)); [done|].
  destruct (port (mkSockAddr out) =? 0); [|done].
  by destruct (setPort p (mkSockAddr out)) as [[e|[]] temp].
Qed.

(** What [setAddress] leaves in [*this] when the parser succeeds: the
    port of the parsed endpoint, and the default in place of a 0. *)
Lemma setAddress_parsed name p this out outlen :
  parsed parse name = (0, out, outlen) -> 0 <= p < 65536 ->
  exists this',
    setAddress parse name p this = (inr tt, this') /\ wf this' /\
    port this' = if port (mkSockAddr out) =? 0 then p
                 else port (mkSockAddr out).
Proof.
  intros E Hp. rewrite setAddress_unfold, E. simpl.
  destruct (Hparse name (store unspec) out outlen eq_refl E) as (Hwf & Hc & _).
  destruct (port (mkSockAddr out) =? 0); [|by eauto].
  destruct (setPort_spec (mkSockAddr out) p Hwf Hc Hp) as (t & -> & Ht & Hw).
  eauto.
Qed.

(** C8. When the parser rejects the string, [setAddress] throws "Unable
    to parse as IP addresss: <name>" and [*this] is what it was before
    the call. *)
Theorem setAddress_failure_atomic name p this :
  (parsed parse name).1.1 <> 0 ->
  setAddress parse name p this = (inl (AddressParseError name), this).
Proof.
  intros H. rewrite setAddress_unfold.
  destruct (parsed parse name) as [[rc out] len]. simpl in H.
  by destruct (Z.eqb_spec rc 0).
Qed.
End setAddress_claims.

(** C3. With a parser that keeps libevent's rule for the port, when the
    string parses [setAddress(name, port)] leaves in the address the port
    written in the string if one is written, and [port] if none is. *)
Theorem setAddress_port (parse : parser) written_port name p this out outlen :
  parses_port parse written_port ->
  written_port_in_range parse written_port ->
  parsed parse name = (0, out, outlen) -> 0 <= p < 65536 ->
  exists this',
    setAddress parse name p this = (inr tt, this') /\
    port this' = match written_port name with
                 | Some q => q
                 | None => p
                 end.
Proof.
  intros Hparse Hrange E Hp.
  destruct (setAddress_parsed parse written_port Hparse name p this out outlen
              E Hp) as (t & Ht & _ & Hport).
  destruct (Hparse name (store unspec) out outlen eq_refl E) as (_ & _ & Hw).
  exists t. split; [done|]. rewrite Hport, Hw.
  destruct (written_port name) as [q|] eqn:Eq; simpl; [|done].
  pose proof (Hrange name out outlen q E Eq).
  destruct (Z.eqb_spec q 0); [lia|done].
Qed.

Lemma setAddress_port_witness :
  (exists this',
     setAddress ipv4_parser "10.0.0.5:9000" 5076 unspec = (inr tt, this') /\
     port this' = match ipv4_written_port "10.0.0.5:9000" with
                  | Some q => q
                  | None => 5076
                  end) /\
  (exists this',
     setAddress ipv4_parser "10.0.0.5" 5076 unspec = (inr tt, this') /\
     port this' = match ipv4_written_port "10.0.0.5" with
                  | Some q => q
                  | None => 5076
                  end).
Proof.
  split.
  - eapply (setAddress_port ipv4_parser ipv4_written_port "10.0.0.5:9000" 5076
              unspec);
      [apply ipv4_parser_parses_port | apply ipv4_parser_port_in_range
      | reflexivity | lia].
  - eapply (setAddress_port ipv4_parser ipv4_written_port "10.0.0.5" 5076
              unspec);
      [apply ipv4_parser_parses_port | apply ipv4_parser_port_in_range
      | reflexivity | lia].
Defined.

(** The two scenarios of the specification, on the IPv4 parser. *)
Example setAddress_default_port :
  ipv4_written_port "10.0.0.5" = None /\
  port (setAddress ipv4_parser "10.0.0.5" 5076 unspec).2 = 5076.
Proof. split; reflexivity. Qed.

Example setAddress_explicit_port :
  ipv4_written_port "10.0.0.5:9000" = Some 9000 /\
  port (setAddress ipv4_parser "10.0.0.5:9000" 5076 unspec).2 = 9000.
Proof. split; reflexivity. Qed.




Lemma setAddress_failure_atomic_witness :
  setAddress ipv4_parser "not an address" 5076 inet6_zero
  = (inl (AddressParseError "not an address"), inet6_zero).
Proof.
  apply (setAddress_failure_atomic ipv4_parser "not an address" 5076 inet6_zero).
  vm_compute. discriminate.
Defined.

(** * The UDP manager: the sharing invariant *)

Module UDPManagerInvariant.
Import UDPManager.

Local Open Scope nat_scope.

Lemma invariant_init : invariant init.
Proof. split; intros ? ?; simpl; by rewrite lookup_empty. Qed.

Lemma remove_listener_length id l l' :
  remove_listener id l = Some l' -> length l = S (length l').
Proof.
  revert l'. induction l as [|x l IH]; intros l'; simpl; [done|].
  case_decide.
  - by intros [= ->].
  - destruct (remove_listener id l) as [l0|]; simpl; [|done].
    intros [= <-]. simpl. by rewrite (IH l0).
Qed.

Lemma invariant_subscribe ok a cb m :
  invariant m -> invariant (subscribe ok a cb m).2.
Proof.
  intros [He Hs]. unfold subscribe. cbv zeta.
  generalize (address_of a). clear a. intros a.
  destruct (registry m !! a) as [e|] eqn:Ea; [|destruct ok]; simpl.
  - destruct (He a e Ea) as (Hl & Hr & Hpos & Ho).
    split; simpl.
    + intros a0 e0. rewrite lookup_insert. case_decide as Haa.
      * intros [= <-]. simpl. rewrite length_app. simpl.
        subst a0. repeat split; [done|lia|lia|done].
      * by apply He.
    + intros s a0 H0. destruct (Hs s a0 H0) as (Hlt & e0 & E0 & Hsock).
      split; [done|]. destruct (decide (a = a0)) as [->|Hne].
      * rewrite lookup_insert_eq. eexists. split; [done|]. simpl. congruence.
      * rewrite lookup_insert_ne by done. eauto.
  - assert (Hfresh : os_sockets m !! next_fd m = None).
    { destruct (os_sockets m !! next_fd m) as [a0|] eqn:E; [|done].
      destruct (Hs _ _ E). lia. }
    split; simpl.
    + intros a0 e0. rewrite lookup_insert. case_decide as Haa.
      * intros [= <-]. simpl. subst a0. rewrite lookup_insert_eq.
        repeat split; lia.
      * intros E0. destruct (He a0 e0 E0) as (Hl & Hr & Hpos & Ho).
        repeat split; try done.
        rewrite lookup_insert_ne; [done|].
        intros Heq. destruct (Hs _ _ Ho). lia.
    + intros s a0. rewrite lookup_insert. case_decide as Hss.
      * intros [= <-]. subst s. split; [lia|].
        rewrite lookup_insert_eq. eauto.
      * intros H0. destruct (Hs s a0 H0) as (Hlt & e0 & E0 & Hsock).
        split; [lia|]. exists e0. split; [|done].
        rewrite lookup_insert_ne; [done|]. congruence.
  - split; simpl; [done|].
    intros s a0 H0. destruct (Hs s a0 H0) as (Hlt & He0). split; [lia|done].
Qed.

Lemma invariant_unsubscribe h m :
  invariant m -> invariant (unsubscribe h m).2.
Proof.
  intros [He Hs]. unfold unsubscribe.
  destruct (registry m !! handle_addr h) as [e|] eqn:Ea; [|done].
  destruct (remove_listener (handle_id h) (listeners e)) as [l|] eqn:El; [|done].
  apply remove_listener_length in El.
  destruct (He _ e Ea) as (Hl & Hr & Hpos & Ho).
  case_decide as Hn; simpl; split; simpl.
  - intros a0 e0. rewrite lookup_delete. case_decide as Haa; [done|].
    intros E0. destruct (He a0 e0 E0) as (Hl0 & Hr0 & Hpos0 & Ho0).
    repeat split; try done.
    rewrite lookup_delete_ne; [done|]. congruence.
  - intros s a0. rewrite lookup_delete. case_decide as Hss; [done|].
    intros H0. destruct (Hs s a0 H0) as (Hlt & e0 & E0 & Hsock).
    split; [done|]. exists e0. split; [|done].
    rewrite lookup_delete_ne; [done|]. congruence.
  - intros a0 e0. rewrite lookup_insert. case_decide as Haa.
    + intros [= <-]. simpl. subst a0. repeat split; [done|lia|lia|done].
    + by apply He.
  - intros s a0 H0. destruct (Hs s a0 H0) as (Hlt & e0 & E0 & Hsock).
    split; [done|]. destruct (decide (handle_addr h = a0)) as [Heq|Hne].
    + rewrite Heq, lookup_insert_eq. eexists. split; [done|]. simpl. congruence.
    + rewrite lookup_insert_ne by done. eauto.
Qed.

Lemma close_all_lookup (entries : list SocketEntry) (os : gmap fd Address) s a :
  foldr (fun e os => delete (sock e) os) os entries !! s = Some a ->
  os !! s = Some a /\ forall e, e ∈ entries -> sock e <> s.
Proof.
  induction entries as [|e0 entries IH]; simpl.
  - intros H. split; [done|]. intros e He. by apply elem_of_nil in He.
  - rewrite lookup_delete. case_decide as Hs; [done|].
    intros H. destruct (IH H) as [Hos Hall]. split; [done|].
    intros e He. apply elem_of_cons in He as [->|He]; [done|by apply Hall].
Qed.

Lemma invariant_cleanup m : invariant m -> invariant (cleanup m).
Proof.
  intros [He Hs]. split; simpl.
  - intros a e. by rewrite lookup_empty.
  - intros s a H. apply close_all_lookup in H as [Hos Hall].
    destruct (Hs s a Hos) as (_ & e & Ee & Hsock).
    exfalso. apply (Hall e); [|done].
    apply list_elem_of_fmap. exists (a, e). split; [done|].
    by apply elem_of_map_to_list.
Qed.

Lemma invariant_step m m' : step m m' -> invariant m -> invariant m'.
Proof.
  destruct 1; auto using invariant_subscribe, invariant_unsubscribe,
    invariant_cleanup.
Qed.

Lemma invariant_reachable m : reachable m -> invariant m.
Proof.
  unfold reachable. revert m. apply rtc_ind_r.
  - apply invariant_init.
  - eauto using invariant_step.
Qed.

Lemma address_of_eq (a1 a2 : SockAddr) :
  address_of a1 = address_of a2 <->
  sa_family a1 = sa_family a2 /\ host a1 = host a2 /\ port a1 = port a2.
Proof.
  unfold address_of. split.
  - by intros [= -> -> ->].
  - by intros (-> & -> & ->).
Qed.

(** C4. The registry is keyed by Address, and two socket addresses are the
    same Address exactly when family, host bytes and port are equal. In
    every reachable state of the manager there is at most one Socket Entry
    and at most one open OS socket per Address; the OS socket of an
    Address is open exactly when the Address has an entry with a reference
    count above 0; and a subscribe to a socket address whose Address has
    an entry returns a handle, adds one to the reference count, appends
    the listener, and makes no OS call: the open sockets are the same as
    before. *)
Theorem one_socket_per_address (m : Manager) :
  reachable m ->
  (forall a1 a2 : SockAddr,
     address_of a1 = address_of a2 <->
     sa_family a1 = sa_family a2 /\ host a1 = host a2 /\ port a1 = port a2) /\
  (forall k1 k2 e1 e2,
     registry m !! k1 = Some e1 -> registry m !! k2 = Some e2 ->
     local e1 = local e2 -> k1 = k2 /\ e1 = e2) /\
  (forall k e, registry m !! k = Some e -> local e = k) /\
  (forall s1 s2 k,
     os_sockets m !! s1 = Some k -> os_sockets m !! s2 = Some k -> s1 = s2) /\
  (forall k,
     (exists s, os_sockets m !! s = Some k) <->
     (exists e, registry m !! k = Some e /\ 0 < refcount e)) /\
  (forall ok (a : SockAddr) cb e,
     registry m !! address_of a = Some e ->
     let m' := (subscribe ok a cb m).2 in
     (subscribe ok a cb m).1 = inr (mkHandle (address_of a) (next_id m)) /\
     registry m' = <[address_of a := mkEntry (local e) (sock e)
                           (listeners e ++ [(next_id m, cb)])
                           (S (refcount e))]> (registry m) /\
     os_sockets m' = os_sockets m /\
     os_calls m' = os_calls m /\
     os_sockets m' !! sock e = Some (address_of a)).
Proof.
  intros Hr. destruct (invariant_reachable m Hr) as [He Hs].
  split; [exact address_of_eq|]. split; [|split; [|split; [|split]]].
  - intros a1 a2 e1 e2 E1 E2 Hl.
    destruct (He _ _ E1) as (Hl1 & _). destruct (He _ _ E2) as (Hl2 & _).
    assert (a1 = a2) as -> by congruence. split; congruence.
  - intros k e E. by destruct (He _ _ E) as (? & _).
  - intros s1 s2 a H1 H2.
    destruct (Hs _ _ H1) as (_ & e1 & E1 & <-).
    destruct (Hs _ _ H2) as (_ & e2 & E2 & <-). congruence.
  - intros a. split.
    + intros [s H]. destruct (Hs _ _ H) as (_ & e & E & _).
      exists e. split; [done|]. by destruct (He _ _ E) as (_ & _ & ? & _).
    + intros (e & E & _). exists (sock e).
      by destruct (He _ _ E) as (_ & _ & _ & ?).
  - intros ok a cb e E m'. subst m'. unfold subscribe. cbv zeta.
    rewrite E. simpl.
    repeat split. by destruct (He _ _ E) as (_ & _ & _ & ?).
Qed.

Lemma two_listeners_reachable : reachable two_listeners.
Proof.
  unfold reachable, two_listeners.
  eapply rtc_l; [apply (step_subscribe true any_5076 10)|].
  apply rtc_once. apply step_subscribe.
Qed.

Lemma one_socket_per_address_witness :
  (exists s, os_sockets two_listeners !! s = Some (address_of any_5076)) <->
  (exists e, registry two_listeners !! address_of any_5076 = Some e /\
             0 < refcount e).
Proof.
  apply (one_socket_per_address two_listeners).
  apply two_listeners_reachable.
Defined.

(** The scenario of the specification: two listeners on 0.0.0.0:5076, one
    of them giving the endpoint with a byte set in its padding, share one
    entry and one socket, bound once, and a datagram is handed to both in
    registration order. *)
Example two_listeners_share_a_socket :
  any_5076 <> any_5076_padded /\
  address_of any_5076_padded = address_of any_5076 /\
  registry two_listeners
    = {[ address_of any_5076 :=
           mkEntry (address_of any_5076) 0 [(0, 10); (1, 11)] 2 ]} /\
  os_sockets two_listeners = {[ 0 := address_of any_5076 ]} /\
  binds_to (address_of any_5076) two_listeners = 1 /\
  dispatch any_5076 unspec sockaddr_in_10_0_0_5 two_listeners
    = [(10, unspec, sockaddr_in_10_0_0_5); (11, unspec, sockaddr_in_10_0_0_5)].
Proof.
  assert (Hk : address_of any_5076_padded = address_of any_5076)
    by reflexivity.
  split; [discriminate|]. split; [done|].
  unfold two_listeners, subscribe, dispatch, binds_to. cbv zeta.
  rewrite Hk. simpl.
  rewrite lookup_empty. simpl. rewrite !lookup_insert_eq. simpl.
  rewrite lookup_insert_eq. simpl.
  rewrite insert_insert_eq, !insert_empty.
  done.
Qed.

End UDPManagerInvariant.

(** * Further properties of SockAddr *)

Lemma get_byte_zeroed n i : get_byte (zeroed n) i = 0.
Proof.
  unfold get_byte, zeroed. rewrite nth_lookup.
  destruct (replicate n "000"%byte !! i) as [b|] eqn:E; simpl; [|done].
  apply lookup_replicate in E as [-> _]. done.
Qed.

Lemma get_byte_memcpy dst src n i :
  (n <= length src)%nat ->
  get_byte (memcpy dst src n) i
  = if decide (i < n)%nat then get_byte src i else get_byte dst i.
Proof.
  intros Hn. unfold get_byte, memcpy. rewrite !nth_lookup.
  case_decide as Hi.
  - rewrite lookup_app_l by (rewrite length_take_le by done; lia).
    by rewrite lookup_take_lt.
  - rewrite lookup_app_r by (rewrite length_take_le by done; lia).
    rewrite length_take_le, lookup_drop by done.
    by replace (n + (i - n))%nat with i by lia.
Qed.

Lemma length_memcpy dst src n :
  (n <= length src)%nat -> (n <= length dst)%nat ->
  length (memcpy dst src n) = length dst.
Proof.
  intros Hs Hd. unfold memcpy.
  rewrite length_app, length_take_le, length_drop by done. lia.
Qed.

Lemma get_byte_store16 off v mem i :
  (off + 1 < length mem)%nat ->
  get_byte (store16 off v mem) i
  = if decide (i = off) then v mod 256
    else if decide (i = off + 1)%nat then (v / 256) mod 256
    else get_byte mem i.
Proof.
  intros H. unfold store16. repeat case_decide; subst.
  - rewrite get_byte_insert_eq by (rewrite length_insert; lia).
    apply byte_to_Z_to_byte.
  - rewrite get_byte_insert_ne by lia. rewrite get_byte_insert_eq by lia.
    rewrite byte_to_Z_to_byte, Z.shiftr_div_pow2 by lia. done.
  - by rewrite !get_byte_insert_ne by lia.
Qed.

(** A 16-bit load only depends on the two bytes it reads. *)
Lemma load16_ext m1 m2 off :
  get_byte m1 off = get_byte m2 off ->
  get_byte m1 (off + 1) = get_byte m2 (off + 1) ->
  load16 m1 off = load16 m2 off.
Proof. unfold load16. by intros -> ->. Qed.

Lemma load32_ext m1 m2 off :
  (forall i, (off <= i < off + 4)%nat -> get_byte m1 i = get_byte m2 i) ->
  load32 m1 off = load32 m2 off.
Proof.
  intros H. unfold load32.
  rewrite (load16_ext m1 m2 off), (load16_ext m1 m2 (off + 2)); try done;
    try (replace (off + 2 + 1)%nat with (off + 3)%nat by lia); apply H; lia.
Qed.

Lemma load16_split mem off :
  load16 mem off mod 256 = get_byte mem off /\
  load16 mem off / 256 mod 256 = get_byte mem (off + 1).
Proof.
  unfold load16, get_byte.
  pose proof (byte_to_Z_range (nth off mem "000"%byte)).
  pose proof (byte_to_Z_range (nth (off + 1) mem "000"%byte)).
  set (a := byte_to_Z (nth off mem "000"%byte)) in *.
  set (b := byte_to_Z (nth (off + 1) mem "000"%byte)) in *.
  assert (Hd : (a + 256 * b) / 256 = b).
  { symmetry. apply Z.div_unique_pos with (r := a); lia. }
  split.
  - symmetry. apply Z.mod_unique_pos with (q := b); lia.
  - rewrite Hd. apply Z.mod_small. lia.
Qed.

Lemma store16_store16 off v w mem :
  store16 off v (store16 off w mem) = store16 off v mem.
Proof.
  unfold store16.
  rewrite (list_insert_insert_ne _ (off + 1) off) by lia.
  by rewrite !list_insert_insert_eq.
Qed.

(** The bytes of the object that [SockAddr(af)] builds. *)
Lemma get_byte_SockAddr_af af this i :
  SockAddr_af af = inr this ->
  get_byte (store this) i
  = if decide (i = 0%nat) then af mod 256
    else if decide (i = 1%nat) then (af / 256) mod 256 else 0.
Proof.
  unfold SockAddr_af. case_match; [done|]. intros [= <-].
  unfold set_sa_family. simpl store.
  rewrite get_byte_store16 by (unfold zeroed; rewrite length_replicate; cbv; lia).
  unfold off_sa_family. repeat case_decide; try done; try lia.
  apply get_byte_zeroed.
Qed.

Lemma sa_family_SockAddr_af af this :
  SockAddr_af af = inr this -> supported af /\ sa_family this = af.
Proof.
  intros H. destruct (classic_supported af) as [Hs|Hs].
  - split; [done|]. rewrite SockAddr_af_supported in H by done.
    injection H as <-. by destruct Hs as [-> | [-> | ->]].
  - by rewrite SockAddr_af_unsupported in H.
Qed.

Lemma size_range this : 16 <= size this <= sizeof_store.
Proof. unfold size. repeat case_match; cbv; split; discriminate. Qed.

(** What a successful construction from a raw endpoint went through. *)
Lemma SockAddr_raw_inv addr len a :
  SockAddr_raw addr len = inr a ->
  exists this,
    SockAddr_af (load16 addr off_sa_family) = inr this /\
    0 <= len <= size this /\
    a = mkSockAddr (memcpy (store this) addr (Z.to_nat len)).
Proof.
  unfold SockAddr_raw.
  destruct (SockAddr_af (load16 addr off_sa_family)) as [e|this]; [done|].
  simpl. destruct (Z.ltb_spec len 0); [done|]. simpl.
  rewrite Z.gtb_ltb. destruct (Z.ltb_spec (size this) len); [done|].
  intros [= <-]. exists this. repeat split; [done|lia].
Qed.

Lemma SockAddr_raw_bytes addr len a :
  (Z.to_nat len <= length addr)%nat ->
  SockAddr_raw addr len = inr a ->
  wf a /\
  forall i : nat,
    get_byte (store a) i
    = if decide (Z.of_nat i < len \/ (i < 2)%nat) then get_byte addr i else 0.
Proof.
  intros Hbuf H. apply SockAddr_raw_inv in H as (this & E & Hlen & ->).
  pose proof (wf_SockAddr_af _ _ E) as Hwf.
  pose proof (size_range this) as Hsz.
  split.
  - unfold wf in *. simpl. rewrite length_memcpy; [done|done|].
    rewrite Hwf. unfold sizeof_store in *. lia.
  - intros i. simpl. rewrite get_byte_memcpy by done.
    destruct (load16_split addr off_sa_family) as [H0 H1].
    rewrite (get_byte_SockAddr_af _ _ i E).
    unfold off_sa_family in *. simpl in H1.
    repeat case_decide; subst; try done; try lia.
Qed.

(** X1. The object built by [SockAddr(af)], [any(af, port)] or
    [loopback(af, port)] has [sizeof(store)] bytes and carries the family
    it was asked for: one of the three accepted families, and for [any] and
    [loopback] one with an address and a port. *)
Theorem constructors_set_family :
  (forall af a, SockAddr_af af = inr a ->
     wf a /\ sa_family a = af /\ supported af) /\
  (forall af p a, any af p = inr a ->
     wf a /\ sa_family a = af /\ concrete af) /\
  (forall af p a, loopback af p = inr a ->
     wf a /\ sa_family a = af /\ concrete af).
Proof.
  split; [|split].
  - intros af a H. split; [by apply (wf_SockAddr_af af)|].
    destruct (sa_family_SockAddr_af _ _ H). done.
  - intros af p a. unfold any.
    destruct (classic_supported af) as [Hs|Hs].
    + rewrite SockAddr_af_supported by done. simpl.
      destruct Hs as [-> | [-> | ->]]; simpl; [| |done]; intros [= <-].
      * split; [by apply wf_set_sin_port|].
        rewrite sa_family_set_sin_port. split; [done|by left].
      * split; [by apply wf_set_sin6_port|].
        rewrite sa_family_set_sin6_port. split; [done|by right].
    + by rewrite SockAddr_af_unsupported.
  - intros af p a. unfold loopback.
    destruct (classic_supported af) as [Hs|Hs].
    + rewrite SockAddr_af_supported by done. simpl.
      destruct Hs as [-> | [-> | ->]]; simpl; [| |done]; intros [= <-].
      * split; [by apply wf_set_sin_port|].
        rewrite sa_family_set_sin_port. split; [done|by left].
      * split; [by apply wf_set_sin6_port|].
        rewrite sa_family_set_sin6_port. split; [done|by right].
    + by rewrite SockAddr_af_unsupported.
Qed.

(** X2. When the constructor from a raw endpoint succeeds on a buffer that
    holds [len] bytes, the address has [sizeof(store)] bytes: the family
    and the first [len] bytes are those of the buffer, and every byte from
    [len] on is zero. *)
Theorem SockAddr_raw_copies_and_zero_fills (addr : list byte) (len : Z) a :
  (Z.to_nat len <= length addr)%nat ->
  SockAddr_raw addr len = inr a ->
  wf a /\
  sa_family a = load16 addr off_sa_family /\
  supported (sa_family a) /\
  forall i : nat,
    get_byte (store a) i
    = if decide (Z.of_nat i < len \/ (i < 2)%nat) then get_byte addr i else 0.
Proof.
  intros Hbuf H. destruct (SockAddr_raw_bytes addr len a Hbuf H) as [Hwf Hb].
  assert (Hf : sa_family a = load16 addr off_sa_family).
  { unfold sa_family. apply load16_ext; rewrite Hb; by rewrite decide_True by (right; cbv; lia). }
  repeat split; try done.
  rewrite Hf. apply SockAddr_raw_inv in H as (this & E & _).
  by destruct (sa_family_SockAddr_af _ _ E).
Qed.

Lemma SockAddr_raw_copies_and_zero_fills_witness :
  exists a,
    SockAddr_raw sockaddr_in_10_0_0_5 8 = inr a /\ wf a /\
    sa_family a = load16 sockaddr_in_10_0_0_5 off_sa_family /\
    supported (sa_family a) /\
    forall i : nat,
      get_byte (store a) i
      = if decide (Z.of_nat i < 8 \/ (i < 2)%nat)
        then get_byte sockaddr_in_10_0_0_5 i else 0.
Proof.
  eexists. split; [reflexivity|].
  apply (SockAddr_raw_copies_and_zero_fills sockaddr_in_10_0_0_5 8);
    [simpl; lia | reflexivity].
Defined.

(** Two addresses that agree on their first 16 bytes agree on the family
    and on everything [port()], [isAny()] and [isLO()] read of an
    [AF_INET] address. *)
Lemma inet_view_ext a b :
  (forall i, (i < 16)%nat -> get_byte (store a) i = get_byte (store b) i) ->
  sa_family a = sa_family b /\ sin_port a = sin_port b /\
  sin_addr a = sin_addr b.
Proof.
  intros H. unfold sa_family, sin_port, sin_addr.
  repeat split.
  - apply load16_ext; apply H; cbv; lia.
  - apply load16_ext; apply H; cbv; lia.
  - apply load32_ext. intros i Hi. apply H. unfold off_sin_addr in Hi. lia.
Qed.

(** X3. Rebuilding an address from its own bytes and its own [size()]
    gives an address with the same family, port, [isAny()] and [isLO()];
    unless the family is [AF_INET], where only 16 of the bytes are copied,
    it is the same address. *)
Theorem SockAddr_raw_round_trip (a : SockAddr) :
  wf a -> supported (sa_family a) ->
  exists b,
    SockAddr_raw (store a) (size a) = inr b /\
    sa_family b = sa_family a /\ size b = size a /\ port b = port a /\
    isAny b = isAny a /\ isLO b = isLO a /\
    (sa_family a <> AF_INET -> b = a).
Proof.
  intros Hwf Hs.
  pose proof (SockAddr_af_supported _ Hs) as E. fold (sa_family a) in E.
  match type of E with _ = inr ?t => set (this := t) in * end.
  assert (Hsz : size this = size a).
  { unfold size. by destruct (sa_family_SockAddr_af _ _ E) as [_ ->]. }
  pose proof (size_range a) as Hr.
  assert (Hraw : SockAddr_raw (store a) (size a)
                 = inr (mkSockAddr (memcpy (store this) (store a) (Z.to_nat (size a))))).
  { apply SockAddr_raw_accepts_length_in_range; [done|lia]. }
  eexists. split; [exact Hraw|].
  set (b := mkSockAddr (memcpy _ _ _)) in *.
  assert (Hlen : (Z.to_nat (size a) <= length (store a))%nat).
  { rewrite Hwf. unfold sizeof_store in *. lia. }
  destruct (SockAddr_raw_bytes _ _ _ Hlen Hraw) as [Hwfb Hb].
  assert (Hfull : sa_family a <> AF_INET -> b = a).
  { intros Hne. unfold b, memcpy.
    assert (size a = 28) as ->.
    { unfold size. destruct (Z.eqb_spec (sa_family a) AF_INET); [done|].
      by case_match. }
    rewrite take_ge by (rewrite Hwf; cbv; lia).
    rewrite drop_ge by (cbv; lia). rewrite app_nil_r. by destruct a. }
  destruct (Z.eq_dec (sa_family a) AF_INET) as [E4|N4].
  - assert (Hagree : forall i, (i < 16)%nat ->
              get_byte (store b) i = get_byte (store a) i).
    { intros i Hi. rewrite Hb. rewrite decide_True; [done|].
      left. lia. }
    destruct (inet_view_ext b a Hagree) as (Hf & Hp & Ha).
    unfold size, port, isAny, isLO. rewrite Hf, E4. simpl.
    rewrite Hp, Ha. repeat split; done.
  - rewrite (Hfull N4). repeat split; done.
Qed.

Lemma SockAddr_raw_round_trip_witness :
  exists b,
    SockAddr_raw (store inet6_zero) (size inet6_zero) = inr b /\
    sa_family b = sa_family inet6_zero /\ size b = size inet6_zero /\
    port b = port inet6_zero /\
    isAny b = isAny inet6_zero /\ isLO b = isLO inet6_zero /\
    (sa_family inet6_zero <> AF_INET -> b = inet6_zero).
Proof.
  apply (SockAddr_raw_round_trip inet6_zero); [reflexivity|].
  right. left. reflexivity.
Defined.

Lemma port_range_aux (this : SockAddr) : 0 <= port this < 65536.
Proof.
  unfold port, ntohs. repeat case_match; try apply htons_range. lia.
Qed.

(** X4. [port()] is a 16-bit value on every address. *)
Theorem port_range (this : SockAddr) : 0 <= port this < 65536.
Proof. apply port_range_aux. Qed.

Lemma sa_family_setPort p this :
  sa_family (setPort p this).2 = sa_family this.
Proof.
  unfold setPort. repeat case_match; simpl;
    by rewrite ?sa_family_set_sin_port, ?sa_family_set_sin6_port.
Qed.

(** X5. [setPort] writes the two bytes of the port and nothing else: the
    other bytes, the family, [size()], [isAny()] and [isLO()] are those of
    the address before the call, whatever the outcome. *)
Theorem setPort_frame (p : Z) (this : SockAddr) :
  let r := (setPort p this).2 in
  length (store r) = length (store this) /\
  (forall i, i <> 2%nat -> i <> 3%nat ->
     get_byte (store r) i = get_byte (store this) i) /\
  sa_family r = sa_family this /\ size r = size this /\
  isAny r = isAny this /\ isLO r = isLO this.
Proof.
  intros r.
  assert (Hlen : length (store r) = length (store this)).
  { unfold r, setPort. repeat case_match; simpl; by rewrite ?length_store16. }
  assert (Hb : forall i, i <> 2%nat -> i <> 3%nat ->
             get_byte (store r) i = get_byte (store this) i).
  { intros i H2 H3. unfold r, setPort, set_sin_port, set_sin6_port, store16.
    repeat case_match; simpl; try done;
      by rewrite !get_byte_insert_ne by (cbv; lia). }
  assert (Hf : sa_family r = sa_family this).
  { unfold sa_family. apply load16_ext; apply Hb; cbv; lia. }
  assert (H4 : sin_addr r = sin_addr this).
  { unfold sin_addr. apply load32_ext. intros i Hi. unfold off_sin_addr in Hi.
    apply Hb; lia. }
  assert (H6 : forall k, sin6_addr32 r k = sin6_addr32 this k).
  { intros k. unfold sin6_addr32. apply load32_ext. intros i Hi.
    unfold off_sin6_addr in Hi. apply Hb; lia. }
  repeat split; try done.
  - unfold size. by rewrite Hf.
  - unfold isAny, IN6_IS_ADDR_UNSPECIFIED. by rewrite Hf, H4, !H6.
  - unfold isLO, IN6_IS_ADDR_LOOPBACK. by rewrite Hf, H4, !H6.
Qed.

(** X6. Of two [setPort] calls in a row only the second one counts. *)
Theorem setPort_setPort (p q : Z) (this : SockAddr) :
  setPort q (setPort p this).2 = setPort q this.
Proof.
  unfold setPort.
  destruct (Z.eqb_spec (sa_family this) AF_INET) as [E4|N4]; simpl.
  - rewrite sa_family_set_sin_port, E4. simpl.
    unfold set_sin_port. simpl. by rewrite store16_store16.
  - destruct (Z.eqb_spec (sa_family this) AF_INET6) as [E6|N6]; simpl.
    + rewrite sa_family_set_sin6_port, E6. simpl.
      unfold set_sin6_port. simpl. by rewrite store16_store16.
    + destruct (Z.eqb_spec (sa_family this) AF_INET); [done|].
      by destruct (Z.eqb_spec (sa_family this) AF_INET6).
Qed.

Lemma port_set_sin_port p a :
  wf a -> sa_family a = AF_INET ->
  port (set_sin_port (htons p) a) = p mod 65536.
Proof.
  intros Hwf E. unfold port. rewrite sa_family_set_sin_port, E. simpl.
  rewrite sin_port_set_sin_port by done.
  rewrite Z.mod_small by apply htons_range. apply ntohs_htons.
Qed.

Lemma port_set_sin6_port p a :
  wf a -> sa_family a = AF_INET6 ->
  port (set_sin6_port (htons p) a) = p mod 65536.
Proof.
  intros Hwf E. unfold port. rewrite sa_family_set_sin6_port, E. simpl.
  rewrite sin6_port_set_sin6_port by done.
  rewrite Z.mod_small by apply htons_range. apply ntohs_htons.
Qed.

(** X7. [any] and [loopback] take an [unsigned] port and keep its low 16
    bits: [port()] of the result is the argument modulo 65536. *)
Theorem any_loopback_port (af p : Z) :
  concrete af ->
  exists a b,
    any af p = inr a /\ port a = p mod 65536 /\
    loopback af p = inr b /\ port b = p mod 65536.
Proof.
  intros [-> | ->]; do 2 eexists;
    (split; [reflexivity|]); (split; [|split; [reflexivity|]]);
    first [ by apply port_set_sin_port | by apply port_set_sin6_port ].
Qed.

Lemma any_loopback_port_witness :
  exists a b,
    any AF_INET 70612 = inr a /\ port a = 70612 mod 65536 /\
    loopback AF_INET 70612 = inr b /\ port b = 70612 mod 65536.
Proof. apply (any_loopback_port AF_INET 70612). left. reflexivity. Defined.

(** X8. No address is both the wildcard and the loopback address. *)
Theorem isAny_isLO_exclusive (this : SockAddr) :
  isAny this && isLO this = false.
Proof.
  unfold isAny, isLO, IN6_IS_ADDR_UNSPECIFIED, IN6_IS_ADDR_LOOPBACK.
  destruct (sa_family this =? AF_INET).
  - change (htonl INADDR_ANY) with 0.
    change (htonl INADDR_LOOPBACK) with 16777343.
    destruct (Z.eqb_spec (sin_addr this) 0) as [->|]; done.
  - destruct (sa_family this =? AF_INET6); [|done].
    change (htonl 1) with 16777216.
    destruct (Z.eqb_spec (sin6_addr32 this 3) 0) as [->|];
      [|by rewrite !andb_false_r].
    simpl. by rewrite !andb_false_r.
Qed.

(** * Further properties of setAddress *)

(** X9. Whatever the parser, a [setAddress] that throws leaves [*this] as
    it was, and what it throws is either the parse error or, when the
    parsed endpoint has port 0 and no concrete family, the error of
    [setPort]. *)
Theorem setAddress_strong_guarantee (parse : parser) name p this e :
  (setAddress parse name p this).1 = inl e ->
  (setAddress parse name p this).2 = this /\
  (e = AddressParseError name \/ e = FamilyNotSet).
Proof.
  rewrite setAddress_unfold.
  destruct (parsed parse name) as [[rc out] len].
  destruct (negb (rc =? 0)); [intros [= <-]; auto|].
  destruct (port (mkSockAddr out) =? 0); [|done].
  unfold setPort.
  destruct (sa_family (mkSockAddr out) =? AF_INET); [done|].
  destruct (sa_family (mkSockAddr out) =? AF_INET6); [done|].
  simpl. intros [= <-]. auto.
Qed.

Lemma setAddress_strong_guarantee_witness :
  (setAddress ipv4_parser "pvxs.example" 5076 inet6_zero).2 = inet6_zero /\
  (AddressParseError "pvxs.example" = AddressParseError "pvxs.example" \/
   AddressParseError "pvxs.example" = FamilyNotSet).
Proof.
  apply (setAddress_strong_guarantee ipv4_parser "pvxs.example" 5076 inet6_zero).
  reflexivity.
Defined.

(** X10. A successful [setAddress] replaces the whole address: what it
    leaves depends on the string and the port only, not on the address it
    is called on. *)
Theorem setAddress_overwrites (parse : parser) name p this other :
  (setAddress parse name p this).1 = inr tt ->
  setAddress parse name p other = setAddress parse name p this.
Proof.
  rewrite !setAddress_unfold.
  destruct (parsed parse name) as [[rc out] len].
  destruct (negb (rc =? 0)); [done|].
  destruct (port (mkSockAddr out) =? 0); [|done].
  by destruct (setPort p (mkSockAddr out)) as [[e|[]] temp].
Qed.

Lemma setAddress_overwrites_witness :
  setAddress ipv4_parser "10.0.0.5:9000" 5076 unspec
  = setAddress ipv4_parser "10.0.0.5:9000" 5076 inet6_zero.
Proof.
  apply (setAddress_overwrites ipv4_parser "10.0.0.5:9000" 5076 inet6_zero unspec).
  reflexivity.
Defined.

(** X11. With a parser that meets [parses_port] and a default port
    between 1 and 65535, a string that parses leaves an address of
    [sizeof(store)] bytes with a concrete family and a port that is not
    0. *)
Theorem setAddress_port_nonzero (parse : parser) written_port name p this
    out outlen :
  parses_port parse written_port ->
  parsed parse name = (0, out, outlen) -> 0 < p < 65536 ->
  exists this',
    setAddress parse name p this = (inr tt, this') /\
    wf this' /\ concrete (sa_family this') /\ port this' <> 0.
Proof.
  intros Hparse E Hp.
  destruct (Hparse name (store unspec) out outlen eq_refl E) as (Hwf & Hc & _).
  rewrite setAddress_unfold, E. simpl.
  destruct (Z.eqb_spec (port (mkSockAddr out)) 0) as [H0|Hn0].
  - destruct (setPort_spec (mkSockAddr out) p Hwf Hc ltac:(lia))
      as (t & Ht & Hport & Hwft).
    rewrite Ht. exists t. repeat split; [done| |lia].
    pose proof (sa_family_setPort p (mkSockAddr out)) as Hfr.
    rewrite Ht in Hfr. simpl in Hfr. by rewrite Hfr.
  - eauto.
Qed.

Lemma setAddress_port_nonzero_witness :
  exists this',
    setAddress ipv4_parser "10.0.0.5" 5076 unspec = (inr tt, this') /\
    wf this' /\ concrete (sa_family this') /\ port this' <> 0.
Proof.
  eapply (setAddress_port_nonzero ipv4_parser ipv4_written_port "10.0.0.5"
            5076 unspec);
    [apply ipv4_parser_parses_port | reflexivity | lia].
Defined.

(** X12. The constructor from a family, a string and a port checks the
    family first, and then only the string decides: an unsupported family
    throws "Unsupported address family" whatever the string, and all
    supported families give the same result, that of [setAddress]. *)
Theorem SockAddr_address_family (parse : parser) af name p :
  (~ supported af ->
     SockAddr_address parse af name p = inl InvalidAddressFamily) /\
  (supported af ->
     SockAddr_address parse af name p
     = match setAddress parse name p unspec with
       | (inl e, _) => inl e
       | (inr _, a) => inr a
       end).
Proof.
  unfold SockAddr_address. split; intros Hs.
  - by rewrite SockAddr_af_unsupported.
  - rewrite SockAddr_af_supported by done. simpl.
    rewrite !setAddress_unfold.
    destruct (parsed parse name) as [[rc out] len].
    destruct (negb (rc =? 0)); [done|].
    destruct (port (mkSockAddr out) =? 0); [|done].
    by destruct (setPort p (mkSockAddr out)) as [[e|[]] temp].
Qed.

(** The family given to the constructor does not show in the result: asked
    for [AF_INET6], an IPv4 literal gives an [AF_INET] address. *)
Example SockAddr_address_inet6_ipv4 :
  (let! a := SockAddr_address ipv4_parser AF_INET6 "10.0.0.5" 5076 in
   ret (sa_family a, port a)) = inr (AF_INET, 5076) /\
  SockAddr_address ipv4_parser 1 "10.0.0.5" 5076 = inl InvalidAddressFamily.
Proof. split; reflexivity. Qed.


(** * Escaper *)

Lemma string_app_assoc (s1 s2 s3 : string) :
  (s1 +:+ s2) +:+ s3 = s1 +:+ (s2 +:+ s3).
Proof.
  induction s1 as [|a s1 IH]; [done|].
  change (String a ((s1 +:+ s2) +:+ s3) = String a (s1 +:+ (s2 +:+ s3))).
  by rewrite IH.
Qed.

Lemma string_app_nil_r (s : string) : s +:+ "" = s.
Proof.
  induction s as [|a s IH]; [done|].
  change (String a (s +:+ "") = String a s). by rewrite IH.
Qed.

Lemma string_length_app (s1 s2 : string) :
  String.length (s1 +:+ s2) = (String.length s1 + String.length s2)%nat.
Proof.
  induction s1 as [|a s1 IH]; [done|].
  change (S (String.length (s1 +:+ s2))
          = S (String.length s1 + String.length s2)).
  by rewrite IH.
Qed.

Lemma all_printable_app s1 s2 :
  all_printable (s1 +:+ s2) = all_printable s1 && all_printable s2.
Proof.
  induction s1 as [|c s1 IH]; [done|].
  change (isprint (char_value c) && all_printable (s1 +:+ s2)
          = isprint (char_value c) && all_printable s1 && all_printable s2).
  rewrite IH. apply andb_assoc.
Qed.

Ltac each_char c := destruct c as [[] [] [] [] [] [] [] []].

(** One turn of the loop, on a stream whose width is 0: the text is
    appended, and a hexadecimal escape leaves base 16 and fill "0". *)
Lemma escape_char_after c strm :
  width strm = 0%nat -> escape_char c strm = after_char c strm.
Proof.
  destruct strm as [t b f w]. simpl. intros ->.
  unfold after_char, hex_escaped, escape_char.
  repeat (match goal with |- context [char_value c =? ?k] =>
            destruct (char_value c =? k) end;
          [unfold put; cbn [text base fill width];
           rewrite string_app_assoc; reflexivity|]).
  destruct (isprint (char_value c)).
  - unfold put; cbn [text base fill width]. reflexivity.
  - unfold insert_unsigned, insert_string, std_setfill, std_setw, std_hex,
      ostringstream.
    cbn [text base fill width padding Nat.sub String.length].
    f_equal. change ("" +:+ "" +:+ "\x") with "\x".
    change (t +:+ "" +:+ "\x") with (t +:+ "\x").
    by rewrite string_app_assoc.
Qed.

Lemma c_str_nul c s : char_value c = 0 -> c_str (String c s) = "".
Proof. intros H. simpl. by rewrite H. Qed.

(** The whole loop, on a stream whose width is 0. *)
Lemma escape_loop_spec s : forall strm,
  width strm = 0%nat ->
  text (escape_loop s strm) = text strm +:+ escaped s /\
  width (escape_loop s strm) = 0%nat /\
  base (escape_loop s strm) = (if any_hex_escaped s then hex else base strm) /\
  fill (escape_loop s strm)
  = (if any_hex_escaped s then "0"%char else fill strm).
Proof.
  induction s as [|c s IH]; intros strm Hw.
  - simpl. by rewrite string_app_nil_r.
  - unfold escaped. simpl.
    destruct (Z.eqb_spec (char_value c) 0) as [E|N].
    + simpl. by rewrite string_app_nil_r.
    + rewrite !escape_char_after by done.
      destruct (IH (after_char c strm) eq_refl) as (Ht & Hw' & Hb & Hf).
      destruct (IH (after_char c ostringstream) eq_refl) as (Ht0 & _).
      rewrite Ht, Ht0, Hw', Hb, Hf. simpl.
      rewrite string_app_assoc.
      repeat split; by destruct (hex_escaped c), (any_hex_escaped s).
Qed.

Lemma escaped_cons c s :
  char_value c <> 0 ->
  escaped (String c s) = text (escape_char c ostringstream) +:+ escaped s.
Proof.
  intros N. unfold escaped at 1. simpl.
  destruct (Z.eqb_spec (char_value c) 0); [done|].
  rewrite escape_char_after by done.
  by destruct (escape_loop_spec s (after_char c ostringstream) eq_refl) as (-> & _).
Qed.

Lemma escaped_nul c s : char_value c = 0 -> escaped (String c s) = "".
Proof. intros E. unfold escaped. simpl. by rewrite E. Qed.

(** What one character is written as. *)
Lemma escape_char_printable c :
  all_printable (text (escape_char c ostringstream)) = true.
Proof. each_char c; vm_compute; reflexivity. Qed.

Lemma escape_char_plain c :
  plain c = true -> text (escape_char c ostringstream) = String c "".
Proof. each_char c; vm_compute; congruence. Qed.

Lemma escape_char_length c :
  (1 <= String.length (text (escape_char c ostringstream)) <= 10)%nat.
Proof. each_char c; vm_compute; lia. Qed.

Lemma unescape_escape_char c rest :
  char_value c <> 0 ->
  unescape (text (escape_char c ostringstream) +:+ rest)
  = String c (unescape rest).
Proof.
  each_char c; intros N; try (exfalso; apply N; reflexivity); reflexivity.
Qed.

(** X13. On a stream whose width is 0, an [Escaper] appends the same text
    whatever else the stream's state is: the text it writes on a fresh
    stream; the width is still 0 afterwards. *)
Theorem insert_Escaper_appends (s : string) (strm : ostream) :
  width strm = 0%nat ->
  text (insert_Escaper (Some s) strm) = text strm +:+ escaped s /\
  width (insert_Escaper (Some s) strm) = 0%nat.
Proof.
  intros Hw. destruct (escape_loop_spec s strm Hw) as (Ht & Hw' & _). done.
Qed.

Lemma insert_Escaper_appends_witness :
  text (insert_Escaper (Some "it's") (mkOstream "val=" hex "*"%char 0))
  = "val=" +:+ escaped "it's" /\
  width (insert_Escaper (Some "it's") (mkOstream "val=" hex "*"%char 0)) = 0%nat.
Proof.
  apply (insert_Escaper_appends "it's" (mkOstream "val=" hex "*"%char 0)).
  reflexivity.
Defined.

(** X14. Escaped text holds printable characters only. *)
Theorem escaped_all_printable (s : string) : all_printable (escaped s) = true.
Proof.
  induction s as [|c s IH]; [done|].
  destruct (Z.eq_dec (char_value c) 0) as [E|N].
  - by rewrite escaped_nul.
  - rewrite escaped_cons, all_printable_app by done.
    by rewrite escape_char_printable, IH.
Qed.

(** X15. A string of printable characters with no backslash and no single
    quote is written as it is. *)
Theorem escaped_plain (s : string) : all_plain s = true -> escaped s = s.
Proof.
  induction s as [|c s IH]; [done|]. simpl.
  intros [Hc Hs]%andb_prop.
  assert (N : char_value c <> 0).
  { intros E. unfold plain, isprint in Hc. rewrite E in Hc. done. }
  rewrite escaped_cons by done.
  rewrite (escape_char_plain c Hc), (IH Hs). done.
Qed.

Lemma escaped_plain_witness : escaped "pvxs:mailbox" = "pvxs:mailbox".
Proof. apply (escaped_plain "pvxs:mailbox"). reflexivity. Defined.

(** X16. Escaping writes at least one and at most ten characters for each
    character of the C string. *)
Theorem escaped_length (s : string) :
  (String.length (c_str s) <= String.length (escaped s)
   <= 10 * String.length (c_str s))%nat.
Proof.
  induction s as [|c s IH]; [simpl; lia|].
  destruct (Z.eq_dec (char_value c) 0) as [E|N].
  - rewrite escaped_nul, c_str_nul by done. simpl. lia.
  - rewrite escaped_cons, string_length_app by done.
    pose proof (escape_char_length c).
    simpl. destruct (Z.eqb_spec (char_value c) 0); [done|]. simpl. lia.
Qed.

Lemma unescape_escaped (s : string) : unescape (escaped s) = c_str s.
Proof.
  induction s as [|c s IH]; [done|].
  destruct (Z.eq_dec (char_value c) 0) as [E|N].
  - by rewrite escaped_nul, c_str_nul.
  - rewrite escaped_cons, unescape_escape_char, IH by done.
    simpl. by destruct (Z.eqb_spec (char_value c) 0).
Qed.

(** X17. Escaping loses nothing: two C strings with the same escaped text
    are the same string. *)
Theorem escaped_injective (s1 s2 : string) :
  escaped s1 = escaped s2 -> c_str s1 = c_str s2.
Proof.
  intros H. rewrite <- !unescape_escaped. by rewrite H.
Qed.

Lemma escaped_injective_witness :
  c_str (String "a" (String (char_of 0) "dropped")) = c_str "a".
Proof.
  apply (escaped_injective (String "a" (String (char_of 0) "dropped")) "a").
  reflexivity.
Defined.

(** The characters written as a hexadecimal escape are those that are
    not printable and are none of the seven control characters with a
    letter of their own. *)
Lemma hex_escaped_spec c :
  hex_escaped c
  = negb (isprint (char_value c))
    && negb ((7 <=? char_value c) && (char_value c <=? 13)).
Proof. each_char c; vm_compute; reflexivity. Qed.

(** X18. On a stream whose width is 0, an [Escaper] leaves the base and
    the fill character as they were unless some character was written as
    a hexadecimal escape; from then on the stream is in base 16 with fill
    "0". *)
Theorem insert_Escaper_leaves_hex (s : string) (strm : ostream) :
  width strm = 0%nat ->
  base (insert_Escaper (Some s) strm)
  = (if any_hex_escaped s then hex else base strm) /\
  fill (insert_Escaper (Some s) strm)
  = (if any_hex_escaped s then "0"%char else fill strm).
Proof.
  intros Hw. destruct (escape_loop_spec s strm Hw) as (_ & _ & Hb & Hf). done.
Qed.

Lemma insert_Escaper_leaves_hex_witness :
  base (insert_Escaper (Some (String (char_of 1) "")) ostringstream)
  = (if any_hex_escaped (String (char_of 1) "") then hex else dec) /\
  fill (insert_Escaper (Some (String (char_of 1) "")) ostringstream)
  = (if any_hex_escaped (String (char_of 1) "") then "0"%char else " "%char).
Proof.
  apply (insert_Escaper_leaves_hex (String (char_of 1) "") ostringstream).
  reflexivity.
Defined.

(** A number written after an escaped control character comes out in base
    16. *)
Example escaper_then_number :
  text (insert_unsigned 5076
          (insert_Escaper (Some (String (char_of 1) "")) ostringstream))
  = "\x0113d4".
Proof. reflexivity. Qed.


(** * Printing a SockAddr *)

Lemma hex_digit_digit_char d : 0 <= d < 16 -> hex_digit (digit_char d) = d.
Proof.
  intros H.
  assert (d = 0 \/ d = 1 \/ d = 2 \/ d = 3 \/ d = 4 \/ d = 5 \/ d = 6 \/
          d = 7 \/ d = 8 \/ d = 9 \/ d = 10 \/ d = 11 \/ d = 12 \/
          d = 13 \/ d = 14 \/ d = 15) as Hd by lia.
  repeat (destruct Hd as [->|Hd]; [reflexivity|]). by subst.
Qed.

Lemma number_from_app b x s1 s2 :
  number_from b x (s1 +:+ s2) = number_from b (number_from b x s1) s2.
Proof.
  revert x. induction s1 as [|c s1 IH]; intros x; [done|].
  change (number_from b (x * b + hex_digit c) (s1 +:+ s2)
          = number_from b (number_from b (x * b + hex_digit c) s1) s2).
  apply IH.
Qed.

(** The fuel is enough for every number below [b ^ (fuel + 1)], and the
    digits written denote the number. *)
Lemma digits_from_spec b fuel : 2 <= b <= 16 -> forall n acc,
  0 <= n < b ^ (Z.of_nat fuel + 1) ->
  exists s, digits_from fuel b n acc = s +:+ acc /\ number_from b 0 s = n.
Proof.
  intros Hb. induction fuel as [|fuel IH]; intros n acc Hn.
  - change (b ^ (Z.of_nat 0 + 1)) with (b ^ 1) in Hn. rewrite Z.pow_1_r in Hn.
    exists (String (digit_char (n mod b)) ""). split; [done|].
    simpl. rewrite hex_digit_digit_char; rewrite Z.mod_small; lia.
  - simpl digits_from.
    pose proof (Z.div_mod n b ltac:(lia)) as Hdm.
    pose proof (Z.mod_pos_bound n b ltac:(lia)) as Hm.
    destruct (Z.eqb_spec (n / b) 0) as [E|N].
    + exists (String (digit_char (n mod b)) ""). split; [done|].
      simpl. rewrite hex_digit_digit_char by lia. lia.
    + assert (Hq : 0 <= n / b < b ^ (Z.of_nat fuel + 1)).
      { split; [apply Z.div_pos; lia|].
        apply Z.div_lt_upper_bound; [lia|].
        rewrite <- Z.pow_succ_r by lia.
        replace (Z.succ (Z.of_nat fuel + 1)) with (Z.of_nat (S fuel) + 1) by lia.
        lia. }
      destruct (IH (n / b) (String (digit_char (n mod b)) acc) Hq)
        as (s & Hs & Hv).
      exists (s +:+ String (digit_char (n mod b)) ""). split.
      * rewrite Hs. by rewrite string_app_assoc.
      * rewrite number_from_app, Hv. simpl.
        rewrite hex_digit_digit_char by lia. lia.
Qed.

Lemma number_of_digits b n :
  0 <= n < 4294967296 -> number_of b (digits b n) = n.
Proof.
  intros Hn. unfold number_of, digits.
  destruct (digits_from_spec (radix b) 10 ltac:(destruct b; simpl; lia) n "")
    as (s & -> & Hs).
  - destruct b; simpl; lia.
  - by rewrite string_app_nil_r.
Qed.

Lemma insert_SockAddr_spec ntop (a : SockAddr) (strm : ostream) h :
  concrete (sa_family a) ->
  ntop (sa_family a) (host_bytes a) (host_buffer a) = Some h ->
  let h' := string_take (host_buffer a - 1) h in
  exists strm',
    insert_SockAddr ntop a strm = Some strm' /\
    text strm'
    = text strm +:+ padding (width strm - String.length h') (fill strm)
      +:+ h' +:+ ":" +:+ digits (base strm) (port a) /\
    width strm' = 0%nat /\ base strm' = base strm /\ fill strm' = fill strm.
Proof.
  intros Hc Hn h'. unfold insert_SockAddr, host_bytes, host_buffer, port in *.
  subst h'.
  destruct Hc as [E|E]; rewrite E in *; simpl in Hn |- *; rewrite Hn;
    eexists; (split; [reflexivity|]);
    unfold insert_unsigned, insert_char, insert_string;
    cbn [text base fill width padding Nat.sub String.length];
    rewrite !string_app_assoc; repeat split.
Qed.

(** X19. For an [AF_INET] or [AF_INET6] address whose host part
    [evutil_inet_ntop] renders, [operator<<] writes the host, a colon and
    the port: the port is written in the base the stream is in and reads
    back as [port()]; only the host is padded to the stream's width, which
    is 0 afterwards. *)
Theorem insert_SockAddr_text ntop (a : SockAddr) (strm : ostream) h :
  concrete (sa_family a) ->
  ntop (sa_family a) (host_bytes a) (host_buffer a) = Some h ->
  let h' := string_take (host_buffer a - 1) h in
  exists strm' d,
    insert_SockAddr ntop a strm = Some strm' /\
    text strm'
    = text strm +:+ padding (width strm - String.length h') (fill strm)
      +:+ h' +:+ ":" +:+ d /\
    number_of (base strm) d = port a /\ width strm' = 0%nat.
Proof.
  intros Hc Hn h'.
  destruct (insert_SockAddr_spec ntop a strm h Hc Hn)
    as (strm' & Hs & Ht & Hw & _).
  exists strm', (digits (base strm) (port a)).
  repeat split; try done.
  apply number_of_digits. pose proof (port_range_aux a). lia.
Qed.

Lemma insert_SockAddr_text_witness :
  exists strm' d,
    insert_SockAddr ipv4_ntop addr_10_0_0_5 (std_setw 12 ostringstream)
    = Some strm' /\
    text strm'
    = text (std_setw 12 ostringstream)
      +:+ padding (12 - String.length (string_take
                     (host_buffer addr_10_0_0_5 - 1) "10.0.0.5")) " "
      +:+ string_take (host_buffer addr_10_0_0_5 - 1) "10.0.0.5"
      +:+ ":" +:+ d /\
    number_of dec d = port addr_10_0_0_5 /\ width strm' = 0%nat.
Proof.
  apply (insert_SockAddr_text ipv4_ntop addr_10_0_0_5
           (std_setw 12 ostringstream) "10.0.0.5");
    [left; reflexivity | reflexivity].
Defined.

(** X20. On a stream whose width is 0, an address written after an
    [Escaper] that used a hexadecimal escape has its port in base 16:
    the text is that of the escaped string, the host, a colon and the
    hexadecimal digits of [port()]. *)
Theorem insert_SockAddr_after_Escaper ntop (a : SockAddr) s strm h :
  width strm = 0%nat -> any_hex_escaped s = true ->
  concrete (sa_family a) ->
  ntop (sa_family a) (host_bytes a) (host_buffer a) = Some h ->
  exists strm',
    insert_SockAddr ntop a (insert_Escaper (Some s) strm) = Some strm' /\
    text strm'
    = text strm +:+ escaped s +:+ string_take (host_buffer a - 1) h
      +:+ ":" +:+ digits hex (port a) /\
    base strm' = hex.
Proof.
  intros Hw Hx Hc Hn.
  destruct (escape_loop_spec s strm Hw) as (Ht & Hw' & Hb & _).
  rewrite Hx in Hb.
  destruct (insert_SockAddr_spec ntop a (insert_Escaper (Some s) strm) h Hc Hn)
    as (strm' & Hs & Ht' & _ & Hb' & _).
  exists strm'. split; [done|].
  unfold insert_Escaper in *. rewrite Ht' , Hb', Ht, Hw', Hb. simpl.
  by rewrite string_app_assoc.
Qed.

Lemma insert_SockAddr_after_Escaper_witness :
  exists strm',
    insert_SockAddr ipv4_ntop addr_10_0_0_5
      (insert_Escaper (Some (String (char_of 27) "[0m")) ostringstream)
    = Some strm' /\
    text strm'
    = text ostringstream +:+ escaped (String (char_of 27) "[0m")
      +:+ string_take (host_buffer addr_10_0_0_5 - 1) "10.0.0.5"
      +:+ ":" +:+ digits hex (port addr_10_0_0_5) /\
    base strm' = hex.
Proof.
  apply (insert_SockAddr_after_Escaper ipv4_ntop addr_10_0_0_5
           (String (char_of 27) "[0m") ostringstream "10.0.0.5");
    reflexivity || (left; reflexivity).
Defined.

(** The two renderings of 10.0.0.5:5076. *)
Example tostring_10_0_0_5 :
  tostring ipv4_ntop addr_10_0_0_5 = Some "10.0.0.5:5076" /\
  text <$> insert_SockAddr ipv4_ntop addr_10_0_0_5
             (insert_Escaper (Some (String (char_of 27) "[0m")) ostringstream)
  = Some "\x1b[0m10.0.0.5:13d4".
Proof. split; reflexivity. Qed.
